(** * PyMesh coordination server and peer node: a shallow embedding

    The development follows [server.py] (the coordination server: its
    request handlers, the dispatch of the main loop and the clean-up of
    inactive peers) and the download loop of the [fetch] command of
    [client.py].

    Python values are modelled as follows.
    - A value read from a decoded control message is a JSON scalar:
      [None], a [str] or an [int] ([pyval]).  Booleans, floats, lists and
      nested objects are outside the model.
    - A [str] is held as the bytes of its UTF-8 encoding, so that
      [len(s.encode())] is [String.length s]; a [str] that has no such
      encoding (a lone surrogate) is outside the model.
    - A Python [dict] is an association list in insertion order
      ([dict K V]): iteration order is observable in the replies of the
      server, so the order is kept.  Keys of a Python dict are unique; the
      operations below keep them unique.
    - An uncaught exception is a value [Raise e] of the [result] monad.
    - [time.time()] is an exact rational; the rounding of floating point
      subtraction is not modelled.
    - A datagram sent with [serverSocket.sendto] is the pair of the
      destination and a [Reply].  The listings, whose length grows with
      the registries, go through [sendto], which raises [OSError] for a
      text that no datagram can hold.  The other replies are short
      constants, or the record of a peer whose fields arrived in a
      datagram of at most 1024 bytes, and are sent as they are.
    - A datagram received is what [json.loads] makes of the at most 1024
      bytes that [recvfrom(1024)] returns ([payload]).
    - What [print] writes is not modelled.

    Also embedded: the loading of the credentials at the start of
    [server.py], and from [client.py] the dispatch of the command loop and
    [process_transfer_request] with its upload loop.  There,
    - text is ASCII, one [ascii] per character;
    - paths are joined as [posixpath] does, and the file system is a
      function from paths to what they name;
    - a dictionary given to [json.dumps] is read back unchanged by
      [json.loads], and the size written with [str] is read back by [int];
    - timeouts of the sockets are not modelled. *)

From stdpp Require Import base tactics option list strings pretty.
From Stdlib Require Import ZArith QArith Lqa.
From Stdlib Require Strings.Byte.

Close Scope Q_scope.
Open Scope string_scope.
Open Scope list_scope.

(** ** Exceptions *)

Inductive exn : Type :=
  | JSONDecodeError
  | KeyError
  | TypeError
  | ValueError
  | OSError.

Inductive result (A : Type) : Type :=
  | Ok (a : A)
  | Raise (e : exn).
Arguments Ok {A} a.
Arguments Raise {A} e.

Global Instance result_ret : MRet result := λ A a, Ok a.
Global Instance result_bind : MBind result := λ A B f m,
  match m with
  | Ok a => f a
  | Raise e => Raise e
  end.

(** [try: body except Exception as e: handler e] *)
Definition try_except {A} (body : result A) (handler : exn → result A) : result A :=
  match body with
  | Ok a => Ok a
  | Raise e => handler e
  end.

(** ** Python values *)

Inductive pyval : Type :=
  | PNone
  | PStr (s : string)
  | PInt (z : Z).

Global Instance pyval_eq_dec : EqDecision pyval.
Proof. solve_decision. Defined.

(** The line feed of ["\n"]. *)
Definition NL : string := String (Ascii.ascii_of_nat 10) EmptyString.

(** [pattern in filename] on two [str]: [pattern] occurs in [filename] as a
    contiguous run of characters. *)
Fixpoint str_contains (pattern filename : string) : bool :=
  String.prefix pattern filename ||
  match filename with
  | EmptyString => false
  | String _ rest => str_contains pattern rest
  end.

(** [x in y] where [y] is expected to be a [str]: a [TypeError] when [y] is
    not iterable ([None], an [int]) or when [y] is a [str] and [x] is not. *)
Definition py_in_str (x y : pyval) : result bool :=
  match y with
  | PStr filename =>
      match x with
      | PStr pattern => Ok (str_contains pattern filename)
      | _ => Raise TypeError
      end
  | _ => Raise TypeError
  end.

(** [sep.join(items)]: every item must be a [str]. *)
Fixpoint str_join (sep : string) (items : list pyval) : result string :=
  match items with
  | [] => Ok ""
  | [PStr s] => Ok s
  | PStr s :: rest => t ← str_join sep rest; Ok (s +:+ sep +:+ t)
  | _ :: _ => Raise TypeError
  end.

(** ** Dictionaries in insertion order *)

Abbreviation dict K V := (list (K * V)) (only parsing).

Section dict.
Context {K V : Type} `{EqDecision K}.

Definition dict_keys (d : dict K V) : list K := d.*1.

(** [d.get(k)] *)
Fixpoint dict_get (k : K) (d : dict K V) : option V :=
  match d with
  | [] => None
  | (k', v) :: d' => if decide (k' = k) then Some v else dict_get k d'
  end.

(** [k in d] *)
Definition dict_in (k : K) (d : dict K V) : bool :=
  match dict_get k d with
  | Some _ => true
  | None => false
  end.

(** [d[k]] *)
Definition dict_getitem (k : K) (d : dict K V) : result V :=
  match dict_get k d with
  | Some v => Ok v
  | None => Raise KeyError
  end.

(** [d[k] = v]: a present key keeps its place, a new key goes last. *)
Fixpoint dict_set (k : K) (v : V) (d : dict K V) : dict K V :=
  match d with
  | [] => [(k, v)]
  | (k', v') :: d' =>
      if decide (k' = k) then (k, v) :: d' else (k', v') :: dict_set k v d'
  end.

(** [del d[k]] *)
Fixpoint dict_del (k : K) (d : dict K V) : result (dict K V) :=
  match d with
  | [] => Raise KeyError
  | (k', v') :: d' =>
      if decide (k' = k) then Ok d'
      else d'' ← dict_del k d'; Ok ((k', v') :: d'')
  end.
End dict.

(** [lst.remove(x)]: the first occurrence goes, [ValueError] if there is
    none. *)
Fixpoint list_remove (x : pyval) (lst : list pyval) : result (list pyval) :=
  match lst with
  | [] => Raise ValueError
  | y :: rest =>
      if decide (y = x) then Ok rest
      else rest' ← list_remove x rest; Ok (y :: rest')
  end.

(** [x in lst] *)
Definition list_in (x : pyval) (lst : list pyval) : bool := bool_decide (x ∈ lst).

(** ** State of the coordination server *)

(** [(host, port)] as returned by [recvfrom]. *)
Definition address : Type := string * Z.

(** A value of [activeUsers]: [(clientAddress, time.time(), tcpPort)]. *)
Definition session : Type := address * Q * pyval.

Definition last_status (s : session) : Q := s.1.2.

Record State : Type := mkState {
  activeUsers : dict pyval session;
  filesUploaded : dict pyval (list pyval)
}.

Definition initial_state : State :=
  {| activeUsers := []; filesUploaded := [] |}.

(** [credentials]: filled once from the credentials file, then only read. *)
Definition credentials_t : Type := dict pyval string.

(** A decoded control message: the JSON object of the datagram. *)
Definition message_t : Type := dict string pyval.

(** [message.get(key)] *)
Definition msg_get (key : string) (message : message_t) : pyval :=
  default PNone (dict_get key message).

(** What [serverSocket.sendto] is given. *)
Inductive Reply : Type :=
  | Text (s : string)
  | PeerInfo (username : pyval) (host : string) (port : pyval)
      (* json.dumps({'username': .., 'address': .., 'port': ..}) *)
  | ServerError (e : exn).
      (* f"ERROR: Server error - {str(e)}" *)

(** The outcome of a handler: the new state and the datagram sent, if any. *)
Definition outcome : Type := State * option Reply.

(** The largest payload of a UDP datagram over IPv4: 65535 bytes less the
    20 bytes of the IP header and the 8 bytes of the UDP header. *)
Definition MAX_DATAGRAM : N := 65507.

(** [len(res.encode())] *)
Definition encoded_size (res : string) : N := N.of_nat (String.length res).

(** [serverSocket.sendto(res.encode(), clientAddress)]: a text of more
    than [MAX_DATAGRAM] bytes is not sent, the call raises [OSError]
    (message too long). *)
Definition sendto (res : string) : result Reply :=
  if (encoded_size res <=? MAX_DATAGRAM)%N then Ok (Text res)
  else Raise OSError.

(** ** Request handlers of [server.py] *)

Section handlers.
Variable credentials : credentials_t.

(** [process_authentication].  The body of the [try]; nothing in it
    raises on the values of the model, the [except] branch is kept as the
    source has it. *)
Definition process_authentication_body
    (st : State) (message : message_t) (clientAddress : address) (now : Q)
    : result outcome :=
  let username := msg_get "username" message in
  let password := msg_get "password" message in
  let tcpPort := msg_get "tcpPort" message in
  if dict_in username (activeUsers st) then
    Ok (st, Some (Text "ERROR: User already logged in"))
  else if negb (dict_in username credentials) then
    Ok (st, Some (Text "ERROR: Username not found"))
  else
    stored ← dict_getitem username credentials;
    if bool_decide (PStr stored ≠ password) then
      Ok (st, Some (Text "ERROR: Incorrect password"))
    else
      Ok ({| activeUsers :=
               dict_set username (clientAddress, now, tcpPort) (activeUsers st);
             filesUploaded := filesUploaded st |},
          Some (Text "OK")).

Definition process_authentication
    (st : State) (message : message_t) (clientAddress : address) (now : Q)
    : result outcome :=
  try_except (process_authentication_body st message clientAddress now)
             (λ e, Ok (st, Some (ServerError e))).

(** The [STATUS] branch of the main loop. *)
Definition status_update
    (st : State) (message : message_t) (clientAddress : address) (now : Q)
    : result outcome :=
  let username := msg_get "username" message in
  if dict_in username (activeUsers st) then
    old ← dict_getitem username (activeUsers st);
    Ok ({| activeUsers :=
             dict_set username (clientAddress, now, old.2) (activeUsers st);
           filesUploaded := filesUploaded st |},
        None)
  else Ok (st, None).

(** [[peer for peer in activeUsers.keys() if peer != username]] *)
Definition activePeers (st : State) (username : pyval) : list pyval :=
  filter (λ peer, peer ≠ username) (dict_keys (activeUsers st)).

Definition list_active_peers
    (st : State) (message : message_t) : result outcome :=
  let username := msg_get "username" message in
  res ←
    (match activePeers st username with
     | _ :: _ =>
         names ← str_join NL (activePeers st username);
         Ok (pretty (length (activePeers st username))
             +:+ " active peers:" +:+ NL +:+ names)
     | [] => Ok "No active peers"
     end);
  sent ← sendto res;
  Ok (st, Some sent).

Definition list_shared_files
    (st : State) (message : message_t) : result outcome :=
  let username := msg_get "username" message in
  let sharedFiles :=
    (filter (λ item, username ∈ item.2) (filesUploaded st)).*1 in
  res ←
    (match sharedFiles with
     | _ :: _ =>
         names ← str_join NL sharedFiles;
         Ok (pretty (length sharedFiles) +:+ " file shared:" +:+ NL +:+ names)
     | [] => Ok "No files shared"
     end);
  sent ← sendto res;
  Ok (st, Some sent).

Definition share_file
    (st : State) (message : message_t) : result outcome :=
  let username := msg_get "username" message in
  let filename := msg_get "filename" message in
  let files1 :=
    if negb (dict_in filename (filesUploaded st))
    then dict_set filename [] (filesUploaded st)
    else filesUploaded st in
  users ← dict_getitem filename files1;
  let files2 :=
    if negb (list_in username users)
    then dict_set filename (users ++ [username]) files1
    else files1 in
  Ok ({| activeUsers := activeUsers st; filesUploaded := files2 |},
      Some (Text "File shared successfully")).

(** [sharer in activeUsers and sharer != username] *)
Definition live_other (st : State) (username sharer : pyval) : bool :=
  dict_in sharer (activeUsers st) && bool_decide (sharer ≠ username).

(** The inner [for sharer in filesUploaded[filename]] of [search_files]:
    whether the loop reaches its [append] and [break]. *)
Fixpoint search_sharers (st : State) (username : pyval)
    (sharers : list pyval) : bool :=
  match sharers with
  | [] => false
  | sharer :: rest =>
      if live_other st username sharer then true
      else search_sharers st username rest
  end.

(** The outer [for filename in filesUploaded] of [search_files], over the
    keys still to visit, with the [matches] gathered so far. *)
Fixpoint search_loop (st : State) (username pattern : pyval)
    (todo : list pyval) (matches : list pyval) : result (list pyval) :=
  match todo with
  | [] => Ok matches
  | filename :: todo' =>
      hit ← py_in_str pattern filename;
      if (hit : bool) then
        sharers ← dict_getitem filename (filesUploaded st);
        if search_sharers st username sharers
        then search_loop st username pattern todo' (matches ++ [filename])
        else search_loop st username pattern todo' matches
      else search_loop st username pattern todo' matches
  end.

Definition search_files
    (st : State) (message : message_t) : result outcome :=
  let username := msg_get "username" message in
  let pattern := msg_get "filename" message in
  matches ← search_loop st username pattern (dict_keys (filesUploaded st)) [];
  res ←
    (match matches with
     | _ :: _ =>
         names ← str_join NL matches;
         Ok (pretty (length matches) +:+ " files found:" +:+ NL +:+ names)
     | [] => Ok "No files found"
     end);
  sent ← sendto res;
  Ok (st, Some sent).

Definition remove_shared_file
    (st : State) (message : message_t) : result outcome :=
  let username := msg_get "username" message in
  let filename := msg_get "filename" message in
  present ←
    (if dict_in filename (filesUploaded st) then
       users ← dict_getitem filename (filesUploaded st);
       Ok (list_in username users)
     else Ok false);
  if (present : bool) then
    users ← dict_getitem filename (filesUploaded st);
    users' ← list_remove username users;
    let files1 := dict_set filename users' (filesUploaded st) in
    left ← dict_getitem filename files1;
    files2 ←
      (match left with
       | [] => dict_del filename files1
       | _ :: _ => Ok files1
       end);
    Ok ({| activeUsers := activeUsers st; filesUploaded := files2 |},
        Some (Text "File successfully removed from sharing"))
  else Ok (st, Some (Text "File removal failed")).

(** The [for sharer in filesUploaded[filename]] of
    [process_fetch_request]: the reply sent before [return], if any. *)
Fixpoint fetch_scan (st : State) (username : pyval)
    (sharers : list pyval) : result (option Reply) :=
  match sharers with
  | [] => Ok None
  | sharer :: rest =>
      if live_other st username sharer then
        s ← dict_getitem sharer (activeUsers st);
        let '(sharerAddress, _, sharerPort) := (s : session) in
        Ok (Some (PeerInfo sharer sharerAddress.1 sharerPort))
      else fetch_scan st username rest
  end.

Definition process_fetch_request
    (st : State) (message : message_t) : result outcome :=
  let username := msg_get "username" message in
  let filename := msg_get "filename" message in
  found ←
    (if dict_in filename (filesUploaded st) then
       sharers ← dict_getitem filename (filesUploaded st);
       fetch_scan st username sharers
     else Ok None);
  match found with
  | Some res => Ok (st, Some res)
  | None => Ok (st, Some (Text "File not found"))
  end.

(** ** The main loop *)

(** What [json.loads(data.decode())] makes of [data], the first 1024 bytes
    of a datagram. *)
Inductive payload : Type :=
  | Garbled                       (* not UTF-8 or not JSON, also by the cut *)
  | Scalar (v : pyval)            (* JSON, but not an object *)
  | Object (message : message_t).

Definition json_loads (data : payload) : result payload :=
  match data with
  | Garbled => Raise JSONDecodeError
  | _ => Ok data
  end.

(** [message['type']] *)
Definition message_type (message : payload) : result pyval :=
  match message with
  | Object fields => dict_getitem "type" fields
  | _ => Raise TypeError
  end.

(** [message.get] is only reached once [message['type']] has succeeded. *)
Definition fields_of (message : payload) : message_t :=
  match message with
  | Object fields => fields
  | _ => []
  end.

(** The [if]/[elif] chain on [message['type']]. *)
Definition dispatch (st : State) (message : payload)
    (clientAddress : address) (now : Q) : result outcome :=
  ty ← message_type message;
  let fields := fields_of message in
  if decide (ty = PStr "AUTH") then
    process_authentication st fields clientAddress now
  else if decide (ty = PStr "STATUS") then
    status_update st fields clientAddress now
  else if decide (ty = PStr "LIST_PEERS") then list_active_peers st fields
  else if decide (ty = PStr "LIST_FILES") then list_shared_files st fields
  else if decide (ty = PStr "SHARE") then share_file st fields
  else if decide (ty = PStr "SEARCH") then search_files st fields
  else if decide (ty = PStr "REMOVE") then remove_shared_file st fields
  else if decide (ty = PStr "FETCH") then process_fetch_request st fields
  else Ok (st, None).

(** [currentTime - last_status > 3] *)
Definition inactive (currentTime : Q) (s : session) : bool :=
  negb (Qle_bool (currentTime - last_status s) 3).

Definition inactivePeers (currentTime : Q) (users : dict pyval session)
    : list pyval :=
  (filter (λ item, inactive currentTime item.2) users).*1.

(** [for username in inactivePeers: del activeUsers[username]] *)
Fixpoint delete_all (doomed : list pyval) (users : dict pyval session)
    : result (dict pyval session) :=
  match doomed with
  | [] => Ok users
  | username :: rest =>
      users' ← dict_del username users;
      delete_all rest users'
  end.

(** The clean-up of inactive peers at the end of each iteration. *)
Definition expiry_sweep (currentTime : Q) (st : State) : result State :=
  users ← delete_all (inactivePeers currentTime (activeUsers st))
                     (activeUsers st);
  Ok {| activeUsers := users; filesUploaded := filesUploaded st |}.

(** One datagram as the loop sees it: the bytes, the sender, the clock
    read by the handler and the clock read by the clean-up. *)
Record arrival : Type := mkArrival {
  data : payload;
  sender : address;
  now : Q;
  currentTime : Q
}.

(** One iteration of [while True]. *)
Definition serve_one (st : State) (a : arrival) : result outcome :=
  message ← json_loads (data a);
  '(st1, sent) ← dispatch st message (sender a) (now a);
  st2 ← expiry_sweep (currentTime a) st1;
  Ok (st2, sent).

(** The loop over the datagrams that arrive, in order.  [Ok] is the loop
    waiting in [recvfrom] for more; [Raise] is the process ended by an
    uncaught exception, the remaining datagrams unread.  In both cases
    the state at that point and the datagrams sent so far are given. *)
Fixpoint main_loop (st : State) (inbox : list arrival)
    : State * list (address * Reply) * result unit :=
  match inbox with
  | [] => (st, [], Ok ())
  | a :: inbox' =>
      match serve_one st a with
      | Raise e => (st, [], Raise e)
      | Ok (st', sent) =>
          let '(final, out, status) := main_loop st' inbox' in
          (final,
           match sent with
           | Some r => (sender a, r) :: out
           | None => out
           end,
           status)
      end
  end.
End handlers.

(** ** The download loop of the [fetch] command of [client.py] *)

(** What the first [recv] and [int(fileSizeData.decode())] yield. *)
Inductive size_token : Type :=
  | NoData                      (* [recv] returned [b''] *)
  | NotANumber                  (* [int] raises [ValueError] *)
  | Declared (fileSize : Z).

(** The last message that the requester prints for the exchange. *)
Inductive fetch_report : Type :=
  | EmptySizeResponse           (* "Error: Received empty file size response from peer" *)
  | PeerConnectionError         (* "Error processing peer connection: ..." *)
  | DownloadedSuccessfully.     (* "<filename> downloaded successfully" *)

(** [while received < fileSize]: [stream] holds the chunks that the coming
    calls of [transferSocket.recv(1024)] return; once it is used up the peer
    has closed the connection and [recv] returns [b''].  The result is the
    final [received] and the bytes written to the file. *)
Fixpoint receive_loop (fileSize : Z) (stream : list (list Byte.byte))
    (received : Z) (file : list Byte.byte) : Z * list Byte.byte :=
  if bool_decide (received < fileSize)%Z then
    match stream with
    | [] => (received, file)
    | data :: stream' =>
        match data with
        | [] => (received, file)
        | _ :: _ =>
            receive_loop fileSize stream'
              (received + Z.of_nat (length data))%Z (file ++ data)
        end
    end
  else (received, file).

(** From the size token to the last message: the report printed and the
    content of the local file, if it was opened.
    - With no data the source prints its message and has a [return] next,
      which stands in no function; the branch is kept for the message.
    - The [ValueError] of [int] does not reach [except ValueError]: the
      clause before it is [except socket.timeout], and after
      [from socket import *] the name [socket] is the socket class, whose
      [timeout] is no exception class.  Matching the clause raises
      [TypeError], the [except socket.timeout] of the enclosing [try] does
      so again, and the [except Exception] around the connection prints
      its message. *)
Definition fetch_receive (token : size_token) (stream : list (list Byte.byte))
    : fetch_report * option (list Byte.byte) :=
  match token with
  | NoData => (EmptySizeResponse, None)
  | NotANumber => (PeerConnectionError, None)
  | Declared fileSize =>
      let '(_, file) := receive_loop fileSize stream 0 [] in
      (DownloadedSuccessfully, Some file)
  end.

(** ** Definitions used in the statements *)

(** Whether a value is a [str]. *)
Definition is_str (v : pyval) : bool :=
  match v with
  | PStr _ => true
  | _ => false
  end.

(** ** The invariant of the server state *)

(** Keys of both dictionaries are unique, as in any Python [dict]; a sharer
    list is never empty and names a user once. *)
Record coordinator_inv (st : State) : Prop := {
  users_unique : NoDup (dict_keys (activeUsers st));
  files_unique : NoDup (dict_keys (filesUploaded st));
  sharers_ok :
    Forall (λ item, item.2 ≠ [] ∧ NoDup item.2) (filesUploaded st)
}.

(** The states the server can be in: from the empty registries, by any
    request that the dispatch of the main loop handles and by the clean-up
    of inactive peers. *)
Inductive reachable (credentials : credentials_t) : State → Prop :=
  | reach_init : reachable credentials initial_state
  | reach_request st message clientAddress now st' sent :
      reachable credentials st →
      dispatch credentials st message clientAddress now = Ok (st', sent) →
      reachable credentials st'
  | reach_sweep st currentTime st' :
      reachable credentials st →
      expiry_sweep currentTime st = Ok st' →
      reachable credentials st'.

(** The registry after [share_file], in closed form. *)
Definition share_registry (username filename : pyval)
    (files : dict pyval (list pyval)) : dict pyval (list pyval) :=
  match dict_get filename files with
  | None => dict_set filename [username] files
  | Some users =>
      if bool_decide (username ∈ users) then files
      else dict_set filename (users ++ [username]) files
  end.

(** A registered filename that [search_files] has to list. *)
Definition search_hit (st : State) (username : pyval) (pattern : string)
    (filename : pyval) : bool :=
  match filename with
  | PStr name =>
      str_contains pattern name &&
      match dict_get filename (filesUploaded st) with
      | Some sharers => search_sharers st username sharers
      | None => false
      end
  | _ => false
  end.

(** ** A concrete run *)

Definition demo_credentials : credentials_t :=
  [(PStr "alice", "s1"); (PStr "bob", "s2"); (PStr "carol", "s3")].

Definition demo_address : address := ("127.0.0.1", 50001%Z).

Definition auth_request (username password : string) (tcpPort : Z) : message_t :=
  [("type", PStr "AUTH"); ("username", PStr username);
   ("password", PStr password); ("tcpPort", PInt tcpPort)].

Definition file_request (type username filename : string) : message_t :=
  [("type", PStr type); ("username", PStr username);
   ("filename", PStr filename)].

Definition at_time (t : Q) (message : message_t) : arrival :=
  {| data := Object message; sender := demo_address; now := t;
     currentTime := t |}.

(** alice and bob log in; alice shares [a.txt], bob shares [aa.txt]. *)
Definition demo_inbox : list arrival :=
  [at_time 0 (auth_request "alice" "s1" 7001);
   at_time 0 (auth_request "bob" "s2" 7002);
   at_time 1 (file_request "SHARE" "alice" "a.txt");
   at_time 1 (file_request "SHARE" "bob" "aa.txt")].

Definition demo_state : State :=
  Eval vm_compute in (main_loop demo_credentials initial_state demo_inbox).1.1.

(** [demo_state] once alice has removed [a.txt]. *)
Definition demo_after_remove : State :=
  {| activeUsers := activeUsers demo_state;
     filesUploaded := [(PStr "aa.txt", [PStr "bob"])] |}.

(** ** A registry whose listing is too long for a datagram *)

(** [n] times the letter x. *)
Fixpoint padding (n : nat) : string :=
  match n with
  | O => ""
  | S n' => "x" +:+ padding n'
  end.

(** A filename of 942 or 943 characters; the [SHARE] request that carries
    it is a datagram of under 1000 bytes. *)
Definition long_name (i : nat) : string := pretty i +:+ "-" +:+ padding 940.

(** alice and bob log in; alice shares seventy files with long names. *)
Definition big_inbox : list arrival :=
  at_time 0 (auth_request "alice" "s1" 7001)
  :: at_time 0 (auth_request "bob" "s2" 7002)
  :: map (λ i, at_time 0 (file_request "SHARE" "alice" (long_name i)))
         (seq 0 70).

Definition big_state : State :=
  (main_loop demo_credentials initial_state big_inbox).1.1.

(** A [LIST_PEERS] request from bob that arrives at time 2 and whose
    clean-up reads the clock at 7/2: alice and bob, last heard at 0, are
    both inactive by then. *)
Definition demo_late : arrival :=
  {| data := Object [("type", PStr "LIST_PEERS"); ("username", PStr "bob")];
     sender := demo_address; now := 2; currentTime := 7 # 2 |}.

(** ** Loading the credentials at start-up ([server.py]) *)

(** [c.isspace()] for an ASCII character: tab, line feed, vertical tab, form
    feed, carriage return, the four separators 28 to 31, and the space.
    Text outside ASCII is not modelled. *)
Definition py_isspace (c : Ascii.ascii) : bool :=
  let n := Ascii.N_of_ascii c in
  ((9 <=? n)%N && (n <=? 13)%N) || ((28 <=? n)%N && (n <=? 32)%N).

(** [s.lstrip()] *)
Fixpoint py_lstrip (s : string) : string :=
  match s with
  | EmptyString => EmptyString
  | String c rest => if py_isspace c then py_lstrip rest else s
  end.

(** [s.rstrip()] *)
Fixpoint py_rstrip (s : string) : string :=
  match s with
  | EmptyString => EmptyString
  | String c rest =>
      match py_rstrip rest with
      | EmptyString => if py_isspace c then EmptyString else String c EmptyString
      | String c' rest' => String c (String c' rest')
      end
  end.

(** [s.strip()] *)
Definition py_strip (s : string) : string := py_rstrip (py_lstrip s).

(** The character [' ']. *)
Definition SP : Ascii.ascii := Ascii.ascii_of_nat 32.

(** [s.split(' ', 1)]: cut at the first space, if there is one. *)
Fixpoint py_split_1 (s : string) : list string :=
  match s with
  | EmptyString => [EmptyString]
  | String c rest =>
      if bool_decide (c = SP) then [EmptyString; rest]
      else match py_split_1 rest with
           | first :: others => String c first :: others
           | [] => []
           end
  end.

(** [username, password = parts] *)
Definition unpack_pair (parts : list string) : result (string * string) :=
  match parts with
  | [username; password] => Ok (username, password)
  | _ => Raise ValueError
  end.

(** The body of [for line in file]. *)
Definition load_line (credentials : credentials_t) (line : string)
    : result credentials_t :=
  '(username, password) ← unpack_pair (py_split_1 (py_strip line));
  Ok (dict_set (PStr username) (py_rstrip password) credentials).

(** [for line in file] *)
Fixpoint load_lines (credentials : credentials_t) (lines : list string)
    : result credentials_t :=
  match lines with
  | [] => Ok credentials
  | line :: rest =>
      credentials' ← load_line credentials line;
      load_lines credentials' rest
  end.

(** The two nested [try]: [server/credentials.txt] first, [credentials.txt]
    when the first does not exist.  A file is given by its lines, [None]
    when [open] raises [FileNotFoundError]; the result is [None] when the
    server ends in [exit(1)]. *)
Definition load_credentials (server_file local_file : option (list string))
    : option credentials_t :=
  match server_file with
  | Some lines =>
      match load_lines [] lines with
      | Ok credentials => Some credentials
      | Raise _ => None
      end
  | None =>
      match local_file with
      | Some lines =>
          match load_lines [] lines with
          | Ok credentials => Some credentials
          | Raise _ => None
          end
      | None => None
      end
  end.

(** What every pair read from the file satisfies. *)
Definition loaded_pair (item : pyval * string) : Prop :=
  ∃ name, item.1 = PStr name
    ∧ name ≠ "" ∧ str_contains " " name = false
    ∧ item.2 ≠ "" ∧ py_rstrip item.2 = item.2.

(** ** The command loop of the peer ([client.py]) *)

(** [s[:n]] *)
Fixpoint str_take (n : nat) (s : string) : string :=
  match n, s with
  | S n', String c rest => String c (str_take n' rest)
  | _, _ => EmptyString
  end.

(** [s[n:]] *)
Fixpoint str_drop (n : nat) (s : string) : string :=
  match n, s with
  | S n', String _ rest => str_drop n' rest
  | _, _ => s
  end.

(** [s.endswith('/')] *)
Fixpoint ends_with_slash (s : string) : bool :=
  match s with
  | EmptyString => false
  | String c EmptyString => bool_decide (c = Ascii.ascii_of_nat 47)
  | String _ rest => ends_with_slash rest
  end.

(** [os.path.join(a, b)] as [posixpath] defines it: an absolute [b]
    replaces [a]. *)
Definition path_join (a b : string) : string :=
  if String.prefix "/" b then b
  else if bool_decide (a = "") || ends_with_slash a then a +:+ b
  else a +:+ "/" +:+ b.

(** [f"./{username}/"] *)
Definition userDir (username : string) : string := "./" +:+ username +:+ "/".

(** [{'type': ..., 'username': username}], for [peers] and [myfiles]. *)
Definition list_request (type username : string) : message_t :=
  [("type", PStr type); ("username", PStr username)].

(** What one turn of the command loop does once a command is read. *)
Inductive client_action : Type :=
  | Request (message : message_t)
      (* sendto the server, recvfrom, print the reply *)
  | FetchRequest (message : message_t)
      (* sendto the server, recvfrom, then the transfer *)
  | PrintNotFound                     (* print("File not found") *)
  | Quit
  | NoAction.

(** [command[:5] if len(command) >= 5 else command] *)
Definition cmdPrefix (command : string) : string :=
  if bool_decide (5 ≤ String.length command)%nat then str_take 5 command
  else command.

(** The [if]/[elif] chain on the command.  [path_exists] is
    [os.path.exists]; the messages are the dictionaries given to
    [json.dumps], which the server reads back with [json.loads]. *)
Definition client_command (path_exists : string → bool)
    (username command : string) : client_action :=
  if bool_decide (command = "peers") then
    Request (list_request "LIST_PEERS" username)
  else if bool_decide (command = "myfiles") then
    Request (list_request "LIST_FILES" username)
  else if bool_decide (cmdPrefix command = "share") then
    let filename := str_drop 6 command in
    let filePath := path_join (userDir username) filename in
    if negb (path_exists filePath) then PrintNotFound
    else Request (file_request "SHARE" username filename)
  else if bool_decide (cmdPrefix command = "find") then
    let pattern := str_drop 5 command in
    Request (file_request "SEARCH" username pattern)
  else if bool_decide (cmdPrefix command = "remove") then
    let filename := str_drop 7 command in
    Request (file_request "REMOVE" username filename)
  else if bool_decide (cmdPrefix command = "fetch") then
    let filename := str_drop 6 command in
    FetchRequest (file_request "FETCH" username filename)
  else if bool_decide (command = "quit") then Quit
  else NoAction.

(** ** Serving a file to a peer ([process_transfer_request]) *)

(** What a path names. *)
Inductive node : Type :=
  | RegularFile (content : list Byte.byte)
  | Directory (st_size : N).

(** What [clientSocket.sendall] is given. *)
Inductive sent_item : Type :=
  | SizeToken (fileSize : N)          (* str(fileSize).encode() *)
  | Chunk (fileData : list Byte.byte).

Global Instance byte_eq_dec : EqDecision Byte.byte := Strings.Byte.byte_eq_dec.

(** [b'ACK'] *)
Definition ACK : list Byte.byte := [Byte.x41; Byte.x43; Byte.x4b].

(** The [while True] of the upload: [file.read(1024)] until it returns
    [b''], each result given to [sendall].  [rest] is what the file still
    holds; [fuel] bounds the number of reads. *)
Fixpoint read_chunks (fuel : nat) (rest : list Byte.byte)
    : list (list Byte.byte) :=
  match fuel with
  | O => []
  | S fuel' =>
      match take 1024 rest with
      | [] => []
      | fileData => fileData :: read_chunks fuel' (drop 1024 rest)
      end
  end.

(** The chunks sent for a file: one read more than the file has bytes is
    always enough. *)
Definition send_file (content : list Byte.byte) : list (list Byte.byte) :=
  read_chunks (S (length content)) content.

(** [process_transfer_request], for the user [username] logged in on the
    serving peer.  [first] is what the first [recv] yields, [None] for
    [b''], and [ack] what the second yields; [fs] says what each path
    names.  Every exception is caught inside the function, so the result is
    what has been sent by the time the connection is closed. *)
Definition process_transfer_request (fs : string → option node)
    (username : string) (first : option payload) (ack : list Byte.byte)
    : list sent_item :=
  match first with
  | None => []
  | Some Garbled => []
  | Some (Scalar _) => []
  | Some (Object request) =>
      match dict_getitem "filename" request,
            dict_getitem "username" request with
      | Ok (PStr filename), Ok _ =>
          let filePath := path_join (userDir username) filename in
          match fs filePath with
          | None => []
          | Some (RegularFile content) =>
              SizeToken (N.of_nat (length content))
              :: (if bool_decide (ack = ACK)
                  then Chunk <$> send_file content
                  else [])
          | Some (Directory st_size) => [SizeToken st_size]
          end
      | _, _ => []
      end
  end.

(** * Properties *)

(** ** The result monad *)

Lemma bind_Ok {A B} (m : result A) (f : A → result B) (b : B) :
  m ≫= f = Ok b ↔ ∃ a, m = Ok a ∧ f a = Ok b.
Proof.
  destruct m as [a|e]; simpl; split.
  - intros Hf. by exists a.
  - by intros (a' & [= <-] & Hf).
  - done.
  - by intros (a' & [=] & _).
Qed.

(** ** Dictionaries *)

Section dict_facts.
Context {K V : Type} `{EqDecision K}.
Implicit Types (k : K) (v : V) (d : dict K V).

Lemma dict_get_elem k v d : dict_get k d = Some v → (k, v) ∈ d.
Proof.
  induction d as [|[k' v'] d IH]; simpl; [done|].
  case_decide as Hk.
  - intros [= ->]. rewrite Hk. left.
  - intros Hg. right. by apply IH.
Qed.

Lemma dict_get_None k d : dict_get k d = None ↔ k ∉ dict_keys d.
Proof.
  induction d as [|[k' v'] d IH]; simpl.
  - split; [intros _; apply not_elem_of_nil | done].
  - rewrite not_elem_of_cons. case_decide as Hk; subst.
    + split; [done | by intros [? _]].
    + rewrite IH. split; [by intros ? | by intros [_ ?]].
Qed.

Lemma dict_in_keys k d : dict_in k d = true ↔ k ∈ dict_keys d.
Proof.
  unfold dict_in. destruct (dict_get k d) as [v|] eqn:Hg.
  - split; [intros _ | done].
    apply dict_get_elem in Hg. apply list_elem_of_fmap. by exists (k, v).
  - apply dict_get_None in Hg. split; [done | by intros ?].
Qed.

Lemma dict_in_false k d : dict_in k d = false ↔ k ∉ dict_keys d.
Proof. rewrite <- dict_in_keys. by destruct (dict_in k d). Qed.

Lemma dict_get_NoDup k v d :
  NoDup (dict_keys d) → (k, v) ∈ d → dict_get k d = Some v.
Proof.
  induction d as [|[k' v'] d IH]; simpl.
  - intros _ Hin. by apply elem_of_nil in Hin.
  - rewrite NoDup_cons. intros [Hk' Hnd] Hin.
    apply elem_of_cons in Hin as [[= -> ->] | Hin].
    + by rewrite decide_True.
    + rewrite decide_False; [by apply IH|].
      intros ->. apply Hk'. apply list_elem_of_fmap. by exists (k, v).
Qed.

Lemma dict_getitem_Ok k v d : dict_getitem k d = Ok v ↔ dict_get k d = Some v.
Proof. unfold dict_getitem. destruct (dict_get k d); naive_solver. Qed.

Lemma dict_get_set k k' v d :
  dict_get k' (dict_set k v d) = if decide (k = k') then Some v else dict_get k' d.
Proof.
  induction d as [|[k0 v0] d IH]; simpl.
  - by repeat case_decide.
  - destruct (decide (k0 = k)) as [->|Hne]; simpl.
    + by repeat case_decide.
    + rewrite IH. repeat case_decide; congruence.
Qed.

Lemma dict_keys_set k v d :
  dict_keys (dict_set k v d)
  = if dict_in k d then dict_keys d else dict_keys d ++ [k].
Proof.
  unfold dict_in. induction d as [|[k0 v0] d IH]; simpl; [done|].
  destruct (decide (k0 = k)) as [->|Hne]; simpl; [done|].
  unfold dict_keys in *. rewrite IH. by destruct (dict_get k d).
Qed.

Lemma dict_set_NoDup k v d :
  NoDup (dict_keys d) → NoDup (dict_keys (dict_set k v d)).
Proof.
  intros Hnd. rewrite dict_keys_set.
  destruct (dict_in k d) eqn:Hin; [done|].
  apply dict_in_false in Hin. apply NoDup_app. split_and!; [done | | apply NoDup_singleton].
  intros x Hx ->%list_elem_of_singleton. done.
Qed.

Lemma dict_set_elem k v d x : x ∈ dict_set k v d → x = (k, v) ∨ x ∈ d.
Proof.
  induction d as [|[k0 v0] d IH]; simpl.
  - intros ->%list_elem_of_singleton. by left.
  - case_decide; rewrite !elem_of_cons; [tauto|].
    intros [->|Hx]; [tauto|]. destruct (IH Hx); tauto.
Qed.

Lemma dict_set_Forall (P : K * V → Prop) k v d :
  Forall P d → P (k, v) → Forall P (dict_set k v d).
Proof.
  rewrite !Forall_forall. intros Hd Hkv x [->|Hx]%dict_set_elem; auto.
Qed.

Lemma dict_set_set k v w d : dict_set k w (dict_set k v d) = dict_set k w d.
Proof.
  induction d as [|[k0 v0] d IH]; simpl.
  - by rewrite decide_True.
  - destruct (decide (k0 = k)) as [->|Hne]; simpl.
    + by rewrite decide_True.
    + rewrite decide_False by done. by rewrite IH.
Qed.

Lemma dict_set_same k v d : dict_get k d = Some v → dict_set k v d = d.
Proof.
  induction d as [|[k0 v0] d IH]; simpl; [done|].
  case_decide; [by intros [= ->]; subst | intros Hg; by rewrite IH].
Qed.

Lemma dict_filter_absent k d :
  k ∉ dict_keys d → filter (λ item, item.1 ≠ k) d = d.
Proof.
  induction d as [|[k0 v0] d IH]; simpl; [done|].
  rewrite not_elem_of_cons. intros [Hne Hk].
  rewrite filter_cons_True by (simpl; congruence). f_equal. by apply IH.
Qed.

(** On a dictionary, [del d[k]] drops the entry of [k] and nothing else. *)
Lemma dict_del_Ok k d :
  NoDup (dict_keys d) → k ∈ dict_keys d →
  dict_del k d = Ok (filter (λ item, item.1 ≠ k) d).
Proof.
  induction d as [|[k0 v0] d IH]; simpl.
  - intros _ Hin. by apply elem_of_nil in Hin.
  - rewrite NoDup_cons. intros [Hk0 Hnd] Hin.
    destruct (decide (k0 = k)) as [->|Hne].
    + rewrite filter_cons_False by (simpl; auto).
      by rewrite dict_filter_absent.
    + apply elem_of_cons in Hin as [->|Hin]; [done|].
      rewrite IH by done. simpl.
      by rewrite filter_cons_True by done.
Qed.

Lemma dict_filter_keys_NoDup (P : K * V → Prop) `{∀ x, Decision (P x)} d :
  NoDup (dict_keys d) → NoDup (dict_keys (filter P d)).
Proof.
  induction d as [|[k0 v0] d IH]; simpl; [done|].
  rewrite NoDup_cons. intros [Hk0 Hnd].
  rewrite filter_cons. case_decide; simpl; [|by apply IH].
  apply NoDup_cons. split; [|by apply IH].
  intros ([k1 v1] & Hk & [_ Hin]%list_elem_of_filter)%list_elem_of_fmap.
  simpl in Hk. subst k1. apply Hk0, list_elem_of_fmap. by exists (k0, v1).
Qed.
Lemma dict_del_present k d d' : dict_del k d = Ok d' → k ∈ dict_keys d.
Proof.
  revert d'. induction d as [|[k0 v0] d IH]; simpl; [done|]. intros d'.
  case_decide as Hk; [intros _; subst; left|].
  intros (d'' & Hd & _)%bind_Ok. right. by eapply IH.
Qed.

Lemma dict_filter_Forall (P Q : K * V → Prop) `{∀ x, Decision (P x)} d :
  Forall Q d → Forall Q (filter P d).
Proof.
  rewrite !Forall_forall. intros HQ x [_ Hx]%list_elem_of_filter. auto.
Qed.

(** A filter only has to agree on the entries that are there. *)
Lemma dict_filter_ext (P Q : K * V → Prop)
    `{∀ x, Decision (P x), ∀ x, Decision (Q x)} d :
  (∀ x, x ∈ d → P x ↔ Q x) → filter P d = filter Q d.
Proof.
  induction d as [|x d IH]; [done|]. intros Hext.
  rewrite !filter_cons, IH by (intros; apply Hext; by right).
  apply decide_ext, Hext. left.
Qed.
End dict_facts.

(** ** [lst.remove] *)

Lemma list_remove_Ok x lst :
  x ∈ lst → ∃ lst', list_remove x lst = Ok lst'.
Proof.
  induction lst as [|y lst IH]; simpl.
  - by intros ?%elem_of_nil.
  - case_decide as Hy; [by eexists|].
    intros [->|Hin]%elem_of_cons; [done|].
    destruct (IH Hin) as [lst' ->]. by eexists.
Qed.

Lemma list_remove_elem x lst lst' y :
  list_remove x lst = Ok lst' → y ∈ lst' → y ∈ lst.
Proof.
  revert lst'. induction lst as [|z lst IH]; simpl; [done|]. intros lst'.
  case_decide as Hz.
  - intros [= ->] Hy. by right.
  - intros (l & Hl & [= <-])%bind_Ok [->|Hy]%elem_of_cons; [left|right].
    by eapply IH.
Qed.

Lemma list_remove_other x lst lst' y :
  list_remove x lst = Ok lst' → y ≠ x → y ∈ lst → y ∈ lst'.
Proof.
  revert lst'. induction lst as [|z lst IH]; simpl; [done|]. intros lst'.
  case_decide as Hz.
  - intros [= ->] Hne [->|Hy]%elem_of_cons; [by subst|done].
  - intros (l & Hl & [= <-])%bind_Ok Hne [->|Hy]%elem_of_cons; [left|right].
    by eapply IH.
Qed.

Lemma list_remove_NoDup x lst lst' :
  list_remove x lst = Ok lst' → NoDup lst → NoDup lst' ∧ x ∉ lst'.
Proof.
  revert lst'. induction lst as [|z lst IH]; simpl; [done|]. intros lst'.
  rewrite NoDup_cons. case_decide as Hz.
  - intros [= ->] [Hz' Hnd]. by subst.
  - intros (l & Hl & [= <-])%bind_Ok [Hz' Hnd].
    destruct (IH _ Hl Hnd) as [Hl1 Hl2]. split.
    + apply NoDup_cons. split; [|done].
      intros Hin. apply Hz'. by eapply list_remove_elem.
    + apply not_elem_of_cons. split; [congruence | done].
Qed.

(** ** What [share_file] does to the registry *)

Lemma share_file_eq st message :
  share_file st message
  = Ok ({| activeUsers := activeUsers st;
           filesUploaded :=
             share_registry (msg_get "username" message)
               (msg_get "filename" message) (filesUploaded st) |},
        Some (Text "File shared successfully")).
Proof.
  unfold share_file, share_registry, dict_in, dict_getitem, list_in.
  destruct (dict_get _ (filesUploaded st)) as [users|] eqn:Hget; simpl.
  - rewrite Hget. simpl. by case_bool_decide.
  - rewrite dict_get_set, decide_True by done. simpl.
    by rewrite dict_set_set.
Qed.

Lemma share_registry_get username filename files f :
  f ≠ filename →
  dict_get f (share_registry username filename files) = dict_get f files.
Proof.
  intros Hne. unfold share_registry.
  destruct (dict_get filename files) as [users|]; [case_bool_decide|];
    rewrite ?dict_get_set, ?decide_False; done.
Qed.

Lemma share_registry_sharers username filename files :
  ∃ users, dict_get filename (share_registry username filename files)
           = Some users
    ∧ username ∈ users
    ∧ match dict_get filename files with
      | None => users = [username]
      | Some old =>
          users = if bool_decide (username ∈ old) then old
                  else old ++ [username]
      end.
Proof.
  unfold share_registry.
  destruct (dict_get filename files) as [old|] eqn:Hget.
  - case_bool_decide.
    + by exists old.
    + exists (old ++ [username]). rewrite dict_get_set, decide_True by done.
      split_and!; [done| |done]. apply elem_of_app. right. left.
  - exists [username]. rewrite dict_get_set, decide_True by done.
    split_and!; [done| |done]. left.
Qed.

Lemma share_registry_idem username filename files :
  share_registry username filename (share_registry username filename files)
  = share_registry username filename files.
Proof.
  destruct (share_registry_sharers username filename files)
    as (users & Hget & Hin & _).
  unfold share_registry at 1. rewrite Hget. by rewrite bool_decide_true.
Qed.

Lemma share_registry_inv username filename st :
  coordinator_inv st →
  coordinator_inv {| activeUsers := activeUsers st;
                     filesUploaded :=
                       share_registry username filename (filesUploaded st) |}.
Proof.
  intros [Hu Hf Hs]. split; simpl; [done| |]; unfold share_registry.
  - destruct (dict_get _ _); [case_bool_decide|]; auto using dict_set_NoDup.
  - destruct (dict_get filename (filesUploaded st)) as [old|] eqn:Hget.
    + case_bool_decide as Hin; [done|].
      apply dict_set_Forall; [done|]. simpl.
      apply dict_get_elem in Hget.
      rewrite Forall_forall in Hs. destruct (Hs _ Hget) as [_ Hnd].
      split; [by destruct old|].
      apply NoDup_app. split_and!; [done| |apply NoDup_singleton].
      by intros x Hx ->%list_elem_of_singleton.
    + apply dict_set_Forall; [done|]. simpl.
      split; [done | apply NoDup_singleton].
Qed.

(** ** What [remove_shared_file] does to the registry *)

Lemma dict_filter_set {K V} `{EqDecision K} (k : K) (v : V) (d : dict K V) :
  filter (λ item, item.1 ≠ k) (dict_set k v d)
  = filter (λ item, item.1 ≠ k) d.
Proof.
  induction d as [|[k0 v0] d IH]; simpl.
  - by rewrite filter_cons_False by (simpl; auto).
  - case_decide as Hk.
    + subst k0. by rewrite !filter_cons_False by (simpl; auto).
    + by rewrite !filter_cons_True, IH by done.
Qed.

Lemma remove_shared_file_fail st message :
  (∀ users,
     dict_get (msg_get "filename" message) (filesUploaded st) = Some users →
     msg_get "username" message ∉ users) →
  remove_shared_file st message = Ok (st, Some (Text "File removal failed")).
Proof.
  intros Habs. unfold remove_shared_file, dict_in, dict_getitem, list_in.
  destruct (dict_get _ (filesUploaded st)) as [users|]; simpl; [|done].
  by rewrite bool_decide_false by auto.
Qed.

Lemma remove_shared_file_success st message users :
  NoDup (dict_keys (filesUploaded st)) →
  dict_get (msg_get "filename" message) (filesUploaded st) = Some users →
  msg_get "username" message ∈ users →
  ∃ users',
    list_remove (msg_get "username" message) users = Ok users'
    ∧ remove_shared_file st message
      = Ok ({| activeUsers := activeUsers st;
               filesUploaded :=
                 match users' with
                 | [] => filter (λ item, item.1 ≠ msg_get "filename" message)
                           (filesUploaded st)
                 | _ :: _ => dict_set (msg_get "filename" message) users'
                               (filesUploaded st)
                 end |},
            Some (Text "File successfully removed from sharing")).
Proof.
  intros Hnd Hget Hin.
  destruct (list_remove_Ok _ _ Hin) as [users' Hrm]. exists users'.
  split; [done|].
  unfold remove_shared_file, dict_in, dict_getitem, list_in.
  rewrite Hget. simpl. rewrite bool_decide_true by done. simpl.
  rewrite Hrm. simpl. rewrite dict_get_set, decide_True by done. simpl.
  destruct users' as [|u users']; simpl; [|done].
  rewrite dict_del_Ok.
  - simpl. by rewrite dict_filter_set.
  - by apply dict_set_NoDup.
  - apply dict_in_keys. unfold dict_in.
    by rewrite dict_get_set, decide_True.
Qed.

(** ** What the clean-up does to [activeUsers] *)

Lemma dict_unique_value {K V} `{EqDecision K} (k : K) (v v' : V) (d : dict K V) :
  NoDup (dict_keys d) → (k, v) ∈ d → (k, v') ∈ d → v = v'.
Proof.
  intros Hnd Hv Hv'.
  apply (dict_get_NoDup _ _ _ Hnd) in Hv, Hv'. congruence.
Qed.

Lemma delete_all_Ok doomed users :
  NoDup doomed → NoDup (dict_keys users) →
  (∀ u, u ∈ doomed → u ∈ dict_keys users) →
  delete_all doomed users = Ok (filter (λ item, item.1 ∉ doomed) users).
Proof.
  revert users. induction doomed as [|u doomed IH]; intros users; simpl.
  - intros _ _ _. f_equal. induction users as [|x users IHu]; [done|].
    rewrite filter_cons_True by apply not_elem_of_nil. by rewrite <- IHu.
  - rewrite NoDup_cons. intros [Hu Hnd] Hkeys Hsub.
    rewrite dict_del_Ok by (auto; apply Hsub; left). simpl.
    rewrite IH.
    + f_equal. rewrite list_filter_filter. apply list_filter_iff.
      intros x. rewrite not_elem_of_cons. tauto.
    + done.
    + by apply dict_filter_keys_NoDup.
    + intros u' Hu'.
      assert (u' ∈ dict_keys users) as Hin by (apply Hsub; by right).
      apply list_elem_of_fmap in Hin as ([k v] & -> & Hin).
      apply list_elem_of_fmap. exists (k, v). split; [done|].
      apply list_elem_of_filter. split; [|done]. simpl in *. by intros ->.
Qed.

Lemma expiry_sweep_eq currentTime st :
  NoDup (dict_keys (activeUsers st)) →
  expiry_sweep currentTime st
  = Ok {| activeUsers :=
            filter (λ item, ¬ inactive currentTime item.2) (activeUsers st);
          filesUploaded := filesUploaded st |}.
Proof.
  intros Hnd. unfold expiry_sweep, inactivePeers.
  rewrite delete_all_Ok.
  - simpl. do 2 f_equal. apply dict_filter_ext. intros [k s] Hin. simpl.
    split.
    + intros Hk Hs. apply Hk, list_elem_of_fmap. exists (k, s).
      split; [done|]. by apply list_elem_of_filter.
    + intros Hs ([k' s'] & Hk & [Hs' Hin']%list_elem_of_filter)%list_elem_of_fmap.
      simpl in *. subst k'.
      by rewrite (dict_unique_value _ _ _ _ Hnd Hin Hin') in Hs.
  - by apply dict_filter_keys_NoDup.
  - done.
  - intros u ([k s] & -> & [_ Hin]%list_elem_of_filter)%list_elem_of_fmap.
    apply list_elem_of_fmap. by exists (k, s).
Qed.

Lemma inactive_spec currentTime s :
  inactive currentTime s ↔ (3 < currentTime - last_status s)%Q.
Proof.
  unfold inactive. rewrite negb_True, Is_true_true, Qle_bool_iff.
  split; [apply Qnot_le_lt | apply Qlt_not_le].
Qed.

(** ** Strings *)

Lemma append_cons (c : Ascii.ascii) (s t : string) :
  String c s +:+ t = String c (s +:+ t).
Proof. reflexivity. Qed.

Lemma append_nil (t : string) : "" +:+ t = t.
Proof. reflexivity. Qed.

Lemma prefix_spec (p s : string) :
  String.prefix p s = true ↔ ∃ post, s = p +:+ post.
Proof.
  revert s. induction p as [|c p IH]; intros s.
  - split; [intros _; by exists s | intros _; by destruct s].
  - destruct s as [|c' s]; simpl.
    { split; [done | intros [post Hpost]; by rewrite append_cons in Hpost]. }
    destruct (Ascii.ascii_dec c c') as [->|Hne].
    + rewrite IH. split; intros [post Hpost]; exists post;
        rewrite append_cons in *; congruence.
    + split; [done | intros [post Hpost]].
      rewrite append_cons in Hpost. congruence.
Qed.

(** [str_contains pattern filename] holds exactly when [pattern] is a
    substring of [filename]. *)
Lemma str_contains_spec (pattern filename : string) :
  str_contains pattern filename = true
  ↔ ∃ pre post, filename = pre +:+ pattern +:+ post.
Proof.
  induction filename as [|c rest IH]; cbn [str_contains];
    rewrite orb_true_iff, prefix_spec.
  - split.
    + intros [[post Hpost]|[=]]. by exists "", post.
    + intros (pre & post & Heq). left. exists post.
      destruct pre; [done | by rewrite append_cons in Heq].
  - rewrite IH. split.
    + intros [[post Hpost]|(pre & post & Hrest)].
      * by exists "", post.
      * exists (String c pre), post. by rewrite append_cons, Hrest.
    + intros ([|c' pre] & post & Heq).
      * left. by exists post.
      * right. exists pre, post. rewrite append_cons in Heq. congruence.
Qed.

Lemma str_contains_empty (filename : string) : str_contains "" filename = true.
Proof. apply str_contains_spec. by exists "", filename. Qed.

Lemma str_join_Ok sep items :
  Forall is_str items → ∃ names, str_join sep items = Ok names.
Proof.
  induction 1 as [|[|s|] items Hx _ [names IH]]; simpl; try done.
  - by eexists.
  - destruct items; [by eexists|]. rewrite IH. by eexists.
Qed.

(** ** Sharers that qualify *)

Lemma live_other_spec st username sharer :
  live_other st username sharer = true
  ↔ sharer ∈ dict_keys (activeUsers st) ∧ sharer ≠ username.
Proof.
  unfold live_other.
  by rewrite andb_true_iff, dict_in_keys, bool_decide_eq_true.
Qed.

Lemma search_sharers_spec st username sharers :
  search_sharers st username sharers = true
  ↔ ∃ sharer, sharer ∈ sharers
      ∧ sharer ∈ dict_keys (activeUsers st) ∧ sharer ≠ username.
Proof.
  induction sharers as [|x sharers IH]; simpl.
  - split; [done | by intros (? & ?%elem_of_nil & _)].
  - destruct (live_other st username x) eqn:Hx.
    + split; [intros _ | done]. exists x. split; [left|].
      by apply live_other_spec.
    + rewrite IH. split; intros (sharer & Hin & Hlive).
      * exists sharer. split; [by right | done].
      * apply elem_of_cons in Hin as [->|Hin]; [|by exists sharer].
        apply live_other_spec in Hlive. congruence.
Qed.

(** ** [process_fetch_request] *)

(** The scan stops at the first sharer that qualifies. *)
Lemma fetch_scan_first st username pre sharer post s :
  (∀ x, x ∈ pre → live_other st username x = false) →
  live_other st username sharer = true →
  dict_get sharer (activeUsers st) = Some s →
  fetch_scan st username (pre ++ sharer :: post)
  = Ok (Some (PeerInfo sharer s.1.1.1 s.2)).
Proof.
  intros Hpre Hlive Hget. induction pre as [|x pre IH]; simpl.
  - rewrite Hlive. unfold dict_getitem. rewrite Hget. simpl.
    by destruct s as [[? ?] ?].
  - rewrite Hpre by left. apply IH. intros y Hy. apply Hpre. by right.
Qed.

Lemma fetch_scan_none st username sharers :
  (∀ x, x ∈ sharers → live_other st username x = false) →
  fetch_scan st username sharers = Ok None.
Proof.
  induction sharers as [|x sharers IH]; simpl; [done|]. intros Hall.
  rewrite Hall by left. apply IH. intros y Hy. apply Hall. by right.
Qed.

(** A list either has no qualifying sharer or splits at the first one. *)
Lemma first_live_other st username sharers :
  (∀ x, x ∈ sharers → live_other st username x = false)
  ∨ ∃ pre sharer post,
      sharers = pre ++ sharer :: post
      ∧ (∀ x, x ∈ pre → live_other st username x = false)
      ∧ live_other st username sharer = true.
Proof.
  induction sharers as [|x sharers IH].
  - left. by intros x ?%elem_of_nil.
  - destruct (live_other st username x) eqn:Hx.
    + right. exists [], x, sharers. split_and!; [done| |done].
      by intros y ?%elem_of_nil.
    + destruct IH as [Hall|(pre & sharer & post & -> & Hpre & Hlive)].
      * left. intros y [->|Hy]%elem_of_cons; auto.
      * right. exists (x :: pre), sharer, post. split_and!; [done| |done].
        intros y [->|Hy]%elem_of_cons; auto.
Qed.

(** ** [sendto] *)

Lemma sendto_fits res :
  (encoded_size res ≤ MAX_DATAGRAM)%N → sendto res = Ok (Text res).
Proof. intros Hfit. unfold sendto. by rewrite (proj2 (N.leb_le _ _) Hfit). Qed.

Lemma sendto_too_long res :
  (MAX_DATAGRAM < encoded_size res)%N → sendto res = Raise OSError.
Proof. intros Hlong. unfold sendto. by rewrite (proj2 (N.leb_gt _ _) Hlong). Qed.

Lemma sendto_Ok res sent :
  sendto res = Ok sent →
  sent = Text res ∧ (encoded_size res ≤ MAX_DATAGRAM)%N.
Proof.
  unfold sendto. destruct (_ <=? _)%N eqn:Hfit; [|done].
  intros [= <-]. split; [done|]. by apply N.leb_le.
Qed.

Lemma sendto_cases {A} res (f : Reply → result A) :
  sendto res ≫= f
  = if (encoded_size res <=? MAX_DATAGRAM)%N then f (Text res)
    else Raise OSError.
Proof. unfold sendto. by destruct (_ <=? _)%N. Qed.

(** ** [search_files] *)

Lemma search_loop_eq st username pattern todo matches :
  Forall is_str todo →
  (∀ f, f ∈ todo → f ∈ dict_keys (filesUploaded st)) →
  search_loop st username (PStr pattern) todo matches
  = Ok (matches ++ filter (λ f, search_hit st username pattern f) todo).
Proof.
  intros Hstr. revert matches.
  induction Hstr as [|f todo Hf _ IH]; intros matches Hkeys; simpl.
  - by rewrite app_nil_r.
  - assert (∀ f', f' ∈ todo → f' ∈ dict_keys (filesUploaded st)) as Hkeys'
      by (intros; apply Hkeys; by right).
    destruct f as [|name|]; try done. simpl.
    assert (is_Some (dict_get (PStr name) (filesUploaded st))) as [sharers Hget].
    { apply not_eq_None_Some. rewrite dict_get_None. intros Habs.
      apply Habs, Hkeys. left. }
    assert (search_hit st username pattern (PStr name)
            = str_contains pattern name && search_sharers st username sharers)
      as Hhit by (unfold search_hit; by rewrite Hget).
    rewrite filter_cons, Hhit. clear Hhit.
    destruct (str_contains pattern name); simpl.
    + unfold dict_getitem. rewrite Hget. simpl.
      destruct (search_sharers st username sharers); simpl.
      * rewrite IH by done. by rewrite <- app_assoc.
      * by apply IH.
    + by apply IH.
Qed.

Lemma search_files_eq st message pattern :
  msg_get "filename" message = PStr pattern →
  Forall is_str (dict_keys (filesUploaded st)) →
  let matches :=
    filter (λ f, search_hit st (msg_get "username" message) pattern f)
           (dict_keys (filesUploaded st)) in
  ∃ names,
    str_join NL matches = Ok names
    ∧ search_files st message
      = sent ← sendto
                 match matches with
                 | [] => "No files found"
                 | _ :: _ =>
                     pretty (length matches) +:+ " files found:" +:+ NL
                     +:+ names
                 end;
        Ok (st, Some sent).
Proof.
  intros Hpat Hstr matches.
  destruct (str_join_Ok NL matches) as [names Hnames].
  { apply Forall_forall. intros f [_ Hf]%list_elem_of_filter.
    rewrite Forall_forall in Hstr. by apply Hstr. }
  exists names. split; [done|].
  unfold search_files. rewrite Hpat, search_loop_eq by done. simpl.
  fold matches. destruct matches; [done|]. by rewrite Hnames.
Qed.

Lemma search_hit_spec st username pattern filename :
  search_hit st username pattern filename = true
  ↔ ∃ name sharers sharer,
      filename = PStr name
      ∧ str_contains pattern name = true
      ∧ dict_get filename (filesUploaded st) = Some sharers
      ∧ sharer ∈ sharers
      ∧ sharer ∈ dict_keys (activeUsers st)
      ∧ sharer ≠ username.
Proof.
  unfold search_hit. split.
  - destruct filename as [|name|]; try done.
    intros [Hc Hs]%andb_true_iff.
    destruct (dict_get _ _) as [sharers|] eqn:Hget; [|done].
    apply search_sharers_spec in Hs as (sharer & ? & ? & ?).
    by exists name, sharers, sharer.
  - intros (name & sharers & sharer & -> & Hc & -> & Hin & Hlive & Hne).
    rewrite Hc. simpl. apply search_sharers_spec. by exists sharer.
Qed.

(** ** Handlers that only read the state *)

Lemma list_active_peers_state st message st' sent :
  list_active_peers st message = Ok (st', sent) → st' = st.
Proof.
  unfold list_active_peers.
  by intros (? & _ & (? & _ & [= <- _])%bind_Ok)%bind_Ok.
Qed.

Lemma list_shared_files_state st message st' sent :
  list_shared_files st message = Ok (st', sent) → st' = st.
Proof.
  unfold list_shared_files.
  by intros (? & _ & (? & _ & [= <- _])%bind_Ok)%bind_Ok.
Qed.

Lemma search_files_state st message st' sent :
  search_files st message = Ok (st', sent) → st' = st.
Proof.
  unfold search_files.
  by intros (? & _ & (? & _ & (? & _ & [= <- _])%bind_Ok)%bind_Ok)%bind_Ok.
Qed.

Lemma process_fetch_request_state st message st' sent :
  process_fetch_request st message = Ok (st', sent) → st' = st.
Proof.
  unfold process_fetch_request. intros ([?|] & _ & Hrest)%bind_Ok;
    by injection Hrest as <-.
Qed.

(** ** [process_authentication] and the [STATUS] branch *)

Lemma process_authentication_inv credentials st message clientAddress now st' sent :
  coordinator_inv st →
  process_authentication credentials st message clientAddress now = Ok (st', sent) →
  coordinator_inv st'.
Proof.
  intros Hinv. unfold process_authentication, process_authentication_body.
  destruct (dict_in _ (activeUsers st)); simpl; [by intros [= <- _]|].
  destruct (dict_in _ credentials); simpl; [|by intros [= <- _]].
  destruct (dict_getitem _ credentials); simpl; [|by intros [= <- _]].
  case_bool_decide; intros [= <- _]; [done|].
  destruct Hinv as [Hu Hf Hs]. split; simpl; auto using dict_set_NoDup.
Qed.

Lemma status_update_inv st message clientAddress now st' sent :
  coordinator_inv st →
  status_update st message clientAddress now = Ok (st', sent) →
  coordinator_inv st'.
Proof.
  intros Hinv. unfold status_update.
  destruct (dict_in _ _); [|by intros [= <- _]].
  intros (old & _ & [= <- _])%bind_Ok.
  destruct Hinv as [Hu Hf Hs]. split; simpl; auto using dict_set_NoDup.
Qed.

Lemma remove_shared_file_inv st message st' sent :
  coordinator_inv st →
  remove_shared_file st message = Ok (st', sent) →
  coordinator_inv st'.
Proof.
  intros Hinv Hrm.
  destruct (dict_get (msg_get "filename" message) (filesUploaded st))
    as [users|] eqn:Hget.
  2:{ rewrite remove_shared_file_fail in Hrm by (intros; congruence).
      by injection Hrm as <-. }
  destruct (decide (msg_get "username" message ∈ users)) as [Hin|Hin].
  2:{ rewrite remove_shared_file_fail in Hrm by (intros; congruence).
      by injection Hrm as <-. }
  destruct Hinv as [Hu Hf Hs].
  destruct (remove_shared_file_success st message users Hf Hget Hin)
    as (users' & Husers' & Heq).
  rewrite Heq in Hrm. injection Hrm as <- _.
  split; simpl; [done| |]; destruct users' as [|u users'].
  - by apply dict_filter_keys_NoDup.
  - by apply dict_set_NoDup.
  - by apply dict_filter_Forall.
  - apply dict_set_Forall; [done|]. simpl. split; [done|].
    apply dict_get_elem in Hget. rewrite Forall_forall in Hs.
    destruct (Hs _ Hget) as [_ Hnd].
    by destruct (list_remove_NoDup _ _ _ Husers' Hnd).
Qed.

Lemma expiry_sweep_inv currentTime st st' :
  coordinator_inv st → expiry_sweep currentTime st = Ok st' →
  coordinator_inv st'.
Proof.
  intros [Hu Hf Hs]. rewrite expiry_sweep_eq by done. intros [= <-].
  split; simpl; [|done..]. by apply dict_filter_keys_NoDup.
Qed.

Lemma dispatch_inv credentials st message clientAddress now st' sent :
  coordinator_inv st →
  dispatch credentials st message clientAddress now = Ok (st', sent) →
  coordinator_inv st'.
Proof.
  intros Hinv. unfold dispatch. intros (ty & _ & Hrun)%bind_Ok.
  repeat case_decide.
  - by eapply process_authentication_inv.
  - by eapply status_update_inv.
  - by apply list_active_peers_state in Hrun as ->.
  - by apply list_shared_files_state in Hrun as ->.
  - rewrite share_file_eq in Hrun. injection Hrun as <- _.
    by apply share_registry_inv.
  - by apply search_files_state in Hrun as ->.
  - by eapply remove_shared_file_inv.
  - by apply process_fetch_request_state in Hrun as ->.
  - by injection Hrun as <-.
Qed.

(** Every state the server can be in satisfies the invariant. *)
Lemma reachable_inv credentials st :
  reachable credentials st → coordinator_inv st.
Proof.
  induction 1 as [|st message clientAddress now st' sent _ IH Hrun
                  |st currentTime st' _ IH Hrun].
  - split; simpl; constructor.
  - by eapply dispatch_inv.
  - by eapply expiry_sweep_inv.
Qed.

(** ** The main loop stays within the reachable states *)

Lemma serve_one_Ok credentials st a st2 sent :
  serve_one credentials st a = Ok (st2, sent) →
  ∃ message st1,
    json_loads (data a) = Ok message
    ∧ dispatch credentials st message (sender a) (now a) = Ok (st1, sent)
    ∧ expiry_sweep (currentTime a) st1 = Ok st2.
Proof.
  unfold serve_one.
  intros (message & Hm & ([st1 sent'] & Hd & (st2' & Hs & [= <- <-])%bind_Ok)%bind_Ok)%bind_Ok.
  by exists message, st1.
Qed.

Lemma serve_one_reachable credentials st a st2 sent :
  reachable credentials st →
  serve_one credentials st a = Ok (st2, sent) →
  reachable credentials st2.
Proof.
  intros Hst (message & st1 & _ & Hd & Hs)%serve_one_Ok.
  eapply reach_sweep; [|done]. by eapply reach_request.
Qed.

Lemma main_loop_reachable credentials st inbox :
  reachable credentials st →
  reachable credentials (main_loop credentials st inbox).1.1.
Proof.
  revert st. induction inbox as [|a inbox IH]; intros st Hst; simpl; [done|].
  destruct (serve_one credentials st a) as [[st' sent]|e] eqn:Hrun; [|done].
  specialize (IH st' (serve_one_reachable _ _ _ _ _ Hst Hrun)).
  by destruct (main_loop credentials st' inbox) as [[? ?] ?].
Qed.

(** Once the dispatch has answered, the clean-up cannot fail: the iteration
    ends in the swept state. *)
Lemma serve_one_eq credentials st a message st1 sent :
  reachable credentials st →
  json_loads (data a) = Ok message →
  dispatch credentials st message (sender a) (now a) = Ok (st1, sent) →
  serve_one credentials st a
  = Ok ({| activeUsers :=
             filter (λ item, ¬ inactive (currentTime a) item.2) (activeUsers st1);
           filesUploaded := filesUploaded st1 |},
        sent).
Proof.
  intros Hst Hm Hd. unfold serve_one. rewrite Hm. simpl. rewrite Hd. simpl.
  rewrite expiry_sweep_eq; [done|].
  apply (users_unique st1), (reachable_inv credentials).
  by eapply reach_request.
Qed.

Lemma filter_eq_absent (x : pyval) (l : list pyval) :
  x ∉ l → filter (λ y, y = x) l = [].
Proof.
  induction l as [|y l IH]; [done|].
  rewrite not_elem_of_cons. intros [Hne Hl].
  rewrite filter_cons_False by congruence. by apply IH.
Qed.

(** In a list without repetition a member occurs once. *)
Lemma NoDup_count_one (x : pyval) (l : list pyval) :
  NoDup l → x ∈ l → length (filter (λ y, y = x) l) = 1.
Proof.
  induction 1 as [|y l Hy Hnd IH]; [by intros ?%elem_of_nil|].
  intros [->|Hin]%elem_of_cons.
  - rewrite filter_cons_True by done. simpl.
    by rewrite filter_eq_absent.
  - rewrite filter_cons_False by (intros ->; done). by apply IH.
Qed.

(** ** [remove_shared_file], in full *)

Lemma dict_get_filter_ne {K V} `{EqDecision K} (k f : K) (d : dict K V) :
  dict_get f (filter (λ item, item.1 ≠ k) d)
  = if decide (f = k) then None else dict_get f d.
Proof.
  induction d as [|[k0 v0] d IH]; simpl; [by case_decide|].
  rewrite filter_cons. simpl. destruct (decide (k0 ≠ k)) as [Hne|Heq]; simpl.
  - rewrite IH. repeat case_decide; congruence.
  - apply dec_stable in Heq. rewrite IH. repeat case_decide; congruence.
Qed.

Lemma list_remove_nil x lst : list_remove x lst = Ok [] → lst = [x].
Proof.
  destruct lst as [|y rest]; simpl; [done|]. case_decide as Hy.
  - intros [= ->]. by subst.
  - by intros (? & _ & [=])%bind_Ok.
Qed.

(** What [search_files] lists, for a pattern that is a [str] over a
    registry whose filenames are [str]. *)
Lemma search_files_listing st message pattern :
  NoDup (dict_keys (filesUploaded st)) →
  msg_get "filename" message = PStr pattern →
  Forall is_str (dict_keys (filesUploaded st)) →
  ∃ matches names,
    NoDup matches
    ∧ (∀ f, f ∈ matches
            ↔ search_hit st (msg_get "username" message) pattern f = true)
    ∧ str_join NL matches = Ok names
    ∧ search_files st message
      = sent ← sendto
                 match matches with
                 | [] => "No files found"
                 | _ :: _ =>
                     pretty (length matches) +:+ " files found:" +:+ NL
                     +:+ names
                 end;
        Ok (st, Some sent).
Proof.
  intros Hnd Hpat Hstr.
  destruct (search_files_eq st message pattern Hpat Hstr) as (names & Hj & Hrun).
  eexists _, names. split_and!; [|  |exact Hj|exact Hrun].
  - by apply NoDup_filter.
  - intros f. rewrite list_elem_of_filter, Is_true_true. split; [by intros [? _]|].
    intros Hhit. split; [done|].
    apply search_hit_spec in Hhit as (? & sharers & ? & _ & _ & Hget & _).
    apply dict_get_elem in Hget. apply list_elem_of_fmap. by eexists (_, _).
Qed.

Lemma dict_del_keys {K V} `{EqDecision K} (k x : K) (d d' : dict K V) :
  dict_del k d = Ok d' → x ∈ dict_keys d' → x ∈ dict_keys d.
Proof.
  revert d'. induction d as [|[k0 v0] d IH]; simpl; [done|]. intros d'.
  case_decide as Hk.
  - intros [= ->] Hx. by right.
  - intros (d'' & Hd & [= <-])%bind_Ok. simpl.
    intros [->|Hx]%elem_of_cons; [left|right]. by eapply IH.
Qed.

Lemma dict_set_keys {K V} `{EqDecision K} (k x : K) (v : V) (d : dict K V) :
  x ∈ dict_keys (dict_set k v d) → x = k ∨ x ∈ dict_keys d.
Proof.
  rewrite dict_keys_set. destruct (dict_in k d); [by right|].
  intros [?| ->%list_elem_of_singleton]%elem_of_app; [by right | by left].
Qed.

(** [remove_shared_file] registers no new filename. *)
Lemma remove_shared_file_keys st message st' sent f :
  remove_shared_file st message = Ok (st', sent) →
  f ∈ dict_keys (filesUploaded st') → f ∈ dict_keys (filesUploaded st).
Proof.
  unfold remove_shared_file, dict_in, dict_getitem.
  destruct (dict_get _ (filesUploaded st)) as [users|] eqn:Hget; simpl;
    [|by intros [= <- _]].
  destruct (list_in _ users); simpl; [|by intros [= <- _]].
  intros (rest & _ & (left & _ & (files2 & Hdel & [= <- _])%bind_Ok)%bind_Ok)%bind_Ok.
  simpl. intros Hf.
  assert (f ∈ dict_keys (dict_set (msg_get "filename" message) rest
                           (filesUploaded st))) as Hset.
  { destruct left; [by eapply dict_del_keys | by injection Hdel as <-]. }
  apply dict_set_keys in Hset as [-> | ?]; [|done].
  apply dict_in_keys. unfold dict_in. by rewrite Hget.
Qed.

(** Filenames stay [str] as long as the requests that are handled carry a
    [str] in their [filename] field. *)
Lemma dispatch_str_filenames credentials st message clientAddress now st' sent :
  Forall is_str (dict_keys (filesUploaded st)) →
  is_str (msg_get "filename" (fields_of message)) →
  dispatch credentials st message clientAddress now = Ok (st', sent) →
  Forall is_str (dict_keys (filesUploaded st')).
Proof.
  intros Hstr Hname. unfold dispatch. intros (ty & _ & Hrun)%bind_Ok.
  set (fields := fields_of message) in *.
  repeat case_decide.
  - unfold process_authentication, process_authentication_body in Hrun.
    destruct (dict_in _ (activeUsers st)); simpl in Hrun;
      [by injection Hrun as <-|].
    destruct (dict_in _ credentials); simpl in Hrun;
      [|by injection Hrun as <-].
    destruct (dict_getitem _ credentials); simpl in Hrun;
      [|by injection Hrun as <-].
    case_bool_decide; by injection Hrun as <-.
  - unfold status_update in Hrun.
    destruct (dict_in _ _); [|by injection Hrun as <-].
    by apply bind_Ok in Hrun as (old & _ & [= <- _]).
  - by apply list_active_peers_state in Hrun as ->.
  - by apply list_shared_files_state in Hrun as ->.
  - rewrite share_file_eq in Hrun. injection Hrun as <- _. simpl.
    unfold share_registry.
    destruct (dict_get _ _) as [users|] eqn:Hget; [case_bool_decide|];
      rewrite ?dict_keys_set; try done.
    all: destruct (dict_in _ _); [done|].
    all: apply Forall_app; split; [done|]; by constructor.
  - by apply search_files_state in Hrun as ->.
  - rewrite Forall_forall in *. intros f Hf. apply Hstr.
    by eapply remove_shared_file_keys.
  - by apply process_fetch_request_state in Hrun as ->.
  - by injection Hrun as <-.
Qed.


(** In the states the server can reach, an iteration that raises does so in
    the decoding or in the handler, before anything is sent or changed. *)
Lemma serve_one_Raise credentials st a e :
  reachable credentials st →
  serve_one credentials st a = Raise e →
  (message ← json_loads (data a);
   dispatch credentials st message (sender a) (now a)) = Raise e.
Proof.
  intros Hst. unfold serve_one.
  destruct (json_loads (data a)) as [message|e'] eqn:Hm; simpl; [|done].
  destruct (dispatch _ _ _ _ _) as [[st1 sent]|e'] eqn:Hd; simpl; [|done].
  rewrite expiry_sweep_eq; [done|].
  apply (users_unique st1), (reachable_inv credentials).
  by eapply reach_request.
Qed.

(** [process_authentication] answers whatever it is sent. *)
Lemma process_authentication_total credentials st message clientAddress now :
  ∃ out, process_authentication credentials st message clientAddress now = Ok out.
Proof.
  unfold process_authentication, try_except.
  destruct (process_authentication_body _ _ _ _ _); by eexists.
Qed.

(** ** The concrete run *)

Lemma demo_reachable : reachable demo_credentials demo_state.
Proof.
  exact (main_loop_reachable demo_credentials initial_state demo_inbox
           (reach_init demo_credentials)).
Qed.

Lemma demo_filenames : Forall is_str (dict_keys (filesUploaded demo_state)).
Proof. repeat constructor. Qed.

Lemma big_reachable : reachable demo_credentials big_state.
Proof.
  exact (main_loop_reachable demo_credentials initial_state big_inbox
           (reach_init demo_credentials)).
Qed.

Lemma big_filenames : Forall is_str (dict_keys (filesUploaded big_state)).
Proof. apply (bool_decide_unpack _). vm_compute. exact I. Qed.

(** * The claims *)

(** C1 (the code departs from the claim).  A datagram that is not JSON, and
    a JSON object without the [type] field, each end the main loop with an
    uncaught exception: the state is left as it was, no reply is sent, and
    the datagrams that follow are never read.  So does, once a file is
    registered, a [SEARCH] request without the [filename] field. *)
Theorem main_loop_malformed_fatal
    (credentials : credentials_t) (st : State) (clientAddress : address)
    (t t' : Q) (inbox : list arrival) :
  main_loop credentials st
    ({| data := Garbled; sender := clientAddress; now := t; currentTime := t' |}
     :: inbox)
  = (st, [], Raise JSONDecodeError)
  ∧ main_loop credentials st
      ({| data := Object []; sender := clientAddress; now := t;
          currentTime := t' |} :: inbox)
    = (st, [], Raise KeyError)
  ∧ main_loop demo_credentials demo_state
      (at_time 2 [("type", PStr "SEARCH"); ("username", PStr "carol")]
       :: inbox)
    = (demo_state, [], Raise TypeError).
Proof. split_and!; reflexivity. Qed.

(** C2.  [process_authentication] sends exactly one reply, chosen in this
    order: "already logged in" when the username has a session, whatever
    the credentials; else "username not found" when the username is not in
    the credentials; else "incorrect password" when the password differs;
    else "OK", and then a session holding the sender's address, the clock
    and the transfer port is added for the username.  The three failures
    leave the state as it was.  In every reachable state, and after the
    request, no username has two sessions. *)
Theorem process_authentication_outcome
    (credentials : credentials_t) (st : State) (message : message_t)
    (clientAddress : address) (now : Q) :
  let username := msg_get "username" message in
  let password := msg_get "password" message in
  let tcpPort := msg_get "tcpPort" message in
  ∃ st' status,
    process_authentication credentials st message clientAddress now
    = Ok (st', Some (Text status))
    ∧ ((username ∈ dict_keys (activeUsers st)
        ∧ status = "ERROR: User already logged in" ∧ st' = st)
       ∨ ((username ∉ dict_keys (activeUsers st))
          ∧ (username ∉ dict_keys credentials)
          ∧ status = "ERROR: Username not found" ∧ st' = st)
       ∨ ((username ∉ dict_keys (activeUsers st))
          ∧ (∃ stored, dict_get username credentials = Some stored
                       ∧ PStr stored ≠ password)
          ∧ status = "ERROR: Incorrect password" ∧ st' = st)
       ∨ ((username ∉ dict_keys (activeUsers st))
          ∧ (∃ stored, dict_get username credentials = Some stored
                       ∧ PStr stored = password)
          ∧ status = "OK"
          ∧ activeUsers st'
            = activeUsers st ++ [(username, (clientAddress, now, tcpPort))]
          ∧ filesUploaded st' = filesUploaded st))
    ∧ (reachable credentials st →
       NoDup (dict_keys (activeUsers st))
       ∧ NoDup (dict_keys (activeUsers st'))).
Proof.
  intros username password tcpPort.
  assert (reachable credentials st →
          NoDup (dict_keys (activeUsers st))
          ∧ NoDup (dict_keys (activeUsers st))) as Hsame.
  { intros Hinv%reachable_inv. split; apply Hinv. }
  unfold process_authentication, process_authentication_body.
  fold username. fold password. fold tcpPort.
  destruct (dict_in username (activeUsers st)) eqn:Hact; simpl.
  { apply dict_in_keys in Hact. exists st, "ERROR: User already logged in".
    split_and!; [done| |done]. by left. }
  apply dict_in_false in Hact.
  destruct (dict_in username credentials) eqn:Hcred; simpl.
  2:{ apply dict_in_false in Hcred. exists st, "ERROR: Username not found".
      split_and!; [done| |done]. right. by left. }
  unfold dict_in, dict_getitem in *.
  destruct (dict_get username credentials) as [stored|] eqn:Hget; [|done].
  simpl. case_bool_decide as Hpw; simpl.
  { exists st, "ERROR: Incorrect password".
    split_and!; [done| |done]. right. right. left.
    split_and!; [done| |done..]. by exists stored. }
  eexists _, "OK". split_and!; [done| |].
  - right. right. right. split_and!; [done| | done | | done].
    + exists stored. split; [done|].
      by destruct (decide (PStr stored = password)).
    + simpl. clear -Hact. induction (activeUsers st) as [|[k v] d IH]; [done|].
      simpl in *. apply not_elem_of_cons in Hact as [Hne Hact].
      rewrite decide_False by done. by rewrite IH.
  - intros Hinv%reachable_inv. split; [apply Hinv|]. simpl.
    apply dict_set_NoDup, Hinv.
Qed.

(** C3 (the code departs from the claim).  Whatever the declared size and
    whatever arrives before the peer closes the connection, the requester
    prints "downloaded successfully"; with 10 bytes declared and 4 received
    before the close, the file holds the 4 bytes and success is reported. *)
Theorem fetch_receive_always_success :
  (∀ fileSize stream,
     (fetch_receive (Declared fileSize) stream).1 = DownloadedSuccessfully)
  ∧ fetch_receive (Declared 10) [[Byte.x61; Byte.x62; Byte.x63; Byte.x64]]
    = (DownloadedSuccessfully, Some [Byte.x61; Byte.x62; Byte.x63; Byte.x64]).
Proof.
  split; [|reflexivity]. intros fileSize stream. unfold fetch_receive.
  by destruct (receive_loop fileSize stream 0 []).
Qed.

(** C4.  [process_fetch_request] leaves the state as it was and sends one
    reply.  When the filename has a record and its sharer list, read in
    order, has a first entry that has a session and is not the caller, the
    reply names that sharer with the host and the transfer port of its
    session.  When the filename has no record, or no sharer of the record
    has a session and differs from the caller, the reply is "File not
    found". *)
Theorem process_fetch_request_reply (st : State) (message : message_t) :
  let username := msg_get "username" message in
  let filename := msg_get "filename" message in
  ∃ reply,
    process_fetch_request st message = Ok (st, Some reply)
    ∧ match dict_get filename (filesUploaded st) with
      | None => reply = Text "File not found"
      | Some sharers =>
          (∃ pre sharer post host port t tcpPort,
              sharers = pre ++ sharer :: post
              ∧ (∀ x, x ∈ pre →
                   ¬ (x ∈ dict_keys (activeUsers st) ∧ x ≠ username))
              ∧ sharer ∈ dict_keys (activeUsers st)
              ∧ sharer ≠ username
              ∧ dict_get sharer (activeUsers st) = Some (host, port, t, tcpPort)
              ∧ reply = PeerInfo sharer host tcpPort)
          ∨ ((∀ x, x ∈ sharers →
                ¬ (x ∈ dict_keys (activeUsers st) ∧ x ≠ username))
             ∧ reply = Text "File not found")
      end.
Proof.
  intros username filename. unfold process_fetch_request, dict_in, dict_getitem.
  fold username. fold filename.
  destruct (dict_get filename (filesUploaded st)) as [sharers|]; simpl;
    [|by eexists].
  destruct (first_live_other st username sharers)
    as [Hnone|(pre & sharer & post & -> & Hpre & Hlive)].
  - rewrite fetch_scan_none by done. simpl. eexists. split; [done|]. right.
    split; [|done]. intros x Hx Hlive%live_other_spec.
    by rewrite Hnone in Hlive.
  - pose proof Hlive as [Hin Hne]%live_other_spec.
    destruct (dict_get sharer (activeUsers st)) as [[[[host port] t] tcpPort]|]
      eqn:Hget; [|by apply dict_get_None in Hget].
    rewrite (fetch_scan_first _ _ _ _ _ _ Hpre Hlive Hget). simpl.
    eexists. split; [done|]. left.
    exists pre, sharer, post, host, port, t, tcpPort.
    split_and!; try done.
    intros x Hx Hx'%live_other_spec. by rewrite Hpre in Hx'.
Qed.

(** C5.  After a message that the dispatch has handled, the clean-up runs
    and does not fail.  It keeps, in their order, exactly the sessions whose
    age [currentTime - last_status] is at most 3 and removes those whose age
    exceeds 3, so that no session left is older than 3, a removed username
    has no session and is not among the peers listed to any user, and
    [filesUploaded] is the same as before the clean-up. *)
Theorem expiry_sweep_after_message
    (credentials : credentials_t) (st : State) (a : arrival)
    (message : payload) (st1 : State) (sent : option Reply) :
  reachable credentials st →
  json_loads (data a) = Ok message →
  dispatch credentials st message (sender a) (now a) = Ok (st1, sent) →
  ∃ st2,
    serve_one credentials st a = Ok (st2, sent)
    ∧ expiry_sweep (currentTime a) st1 = Ok st2
    ∧ filesUploaded st2 = filesUploaded st1
    ∧ activeUsers st2
      = filter (λ item, ¬ inactive (currentTime a) item.2) (activeUsers st1)
    ∧ (∀ u s, (u, s) ∈ activeUsers st2
              ↔ (u, s) ∈ activeUsers st1
                ∧ ¬ (3 < currentTime a - last_status s)%Q)
    ∧ (∀ u s, (u, s) ∈ activeUsers st2 →
              (currentTime a - last_status s <= 3)%Q)
    ∧ (∀ u s other,
         (u, s) ∈ activeUsers st1 →
         (3 < currentTime a - last_status s)%Q →
         (u ∉ dict_keys (activeUsers st2)) ∧ (u ∉ activePeers st2 other)).
Proof.
  intros Hst Hm Hd.
  assert (coordinator_inv st1) as [Hu _ _]
    by (eapply reachable_inv, reach_request; done).
  eexists. split; [by eapply serve_one_eq|].
  split; [by apply expiry_sweep_eq|]. simpl.
  assert (∀ u s,
    (u, s) ∈ filter (λ item, ¬ inactive (currentTime a) item.2) (activeUsers st1)
    ↔ (u, s) ∈ activeUsers st1 ∧ ¬ (3 < currentTime a - last_status s)%Q)
    as Hkept.
  { intros u s. rewrite list_elem_of_filter. simpl. rewrite inactive_spec.
    tauto. }
  split_and!; [done..| |].
  - intros u s [_ Hage]%Hkept. by apply Qnot_lt_le.
  - intros u s other Hin Hage.
    assert (u ∉ dict_keys
              (filter (λ item, ¬ inactive (currentTime a) item.2)
                      (activeUsers st1))) as Hgone.
    { intros ([u' s'] & Hu' & [Hin' Hage']%Hkept)%list_elem_of_fmap.
      simpl in Hu'. subst u'.
      by rewrite (dict_unique_value _ _ _ _ Hu Hin Hin') in Hage. }
    split; [done|]. unfold activePeers. simpl.
    by intros [_ ?]%list_elem_of_filter.
Qed.

(** C6.  In every state reached from the empty one by requests and
    clean-ups, every record of [filesUploaded] has a non-empty sharer
    list. *)
Theorem file_record_never_empty
    (credentials : credentials_t) (st : State)
    (filename : pyval) (sharers : list pyval) :
  reachable credentials st →
  (filename, sharers) ∈ filesUploaded st →
  sharers ≠ [].
Proof.
  intros [_ _ Hs]%reachable_inv Hin.
  rewrite Forall_forall in Hs. by destruct (Hs _ Hin).
Qed.

(** C7 (amended).  For a pattern that is a [str], over a registry whose
    filenames are [str], the reply that [search_files] builds lists exactly
    the registered filenames that contain the pattern as a substring and
    have a sharer, other than the caller, with a session; each such filename
    is listed once, and the count in the reply is the number of filenames
    listed.  That reply is the datagram sent when it is at most
    [MAX_DATAGRAM] bytes long; a longer one is not sent, [sendto] raises
    [OSError]. *)
Theorem search_files_lists_qualifying
    (credentials : credentials_t) (st : State) (message : message_t)
    (pattern : string) :
  reachable credentials st →
  msg_get "filename" message = PStr pattern →
  Forall is_str (dict_keys (filesUploaded st)) →
  ∃ matches names,
    NoDup matches
    ∧ (∀ f, f ∈ matches
            ↔ ∃ name sharers sharer,
                f = PStr name
                ∧ (∃ pre post, name = pre +:+ pattern +:+ post)
                ∧ dict_get f (filesUploaded st) = Some sharers
                ∧ sharer ∈ sharers
                ∧ sharer ∈ dict_keys (activeUsers st)
                ∧ sharer ≠ msg_get "username" message)
    ∧ str_join NL matches = Ok names
    ∧ let res :=
        match matches with
        | [] => "No files found"
        | _ :: _ =>
            pretty (length matches) +:+ " files found:" +:+ NL +:+ names
        end in
      search_files st message
      = if (encoded_size res <=? MAX_DATAGRAM)%N
        then Ok (st, Some (Text res))
        else Raise OSError.
Proof.
  intros [_ Hf _]%reachable_inv Hpat Hstr.
  destruct (search_files_listing st message pattern Hf Hpat Hstr)
    as (matches & names & Hnd & Hin & Hj & Hrun).
  rewrite sendto_cases in Hrun.
  exists matches, names. split_and!; [done| |done..].
  intros f. rewrite Hin, search_hit_spec.
  by setoid_rewrite str_contains_spec.
Qed.

(** C10 (amended).  With the empty string as pattern, over a registry whose
    filenames are [str], the reply that [search_files] builds lists exactly
    the registered filenames that have a sharer, other than the caller, with
    a session.  That reply is the datagram sent when it is at most
    [MAX_DATAGRAM] bytes long; a longer one is not sent, [sendto] raises
    [OSError]. *)
Theorem search_files_empty_pattern
    (credentials : credentials_t) (st : State) (message : message_t) :
  reachable credentials st →
  msg_get "filename" message = PStr "" →
  Forall is_str (dict_keys (filesUploaded st)) →
  ∃ matches names,
    NoDup matches
    ∧ (∀ f, f ∈ matches
            ↔ ∃ sharers sharer,
                dict_get f (filesUploaded st) = Some sharers
                ∧ sharer ∈ sharers
                ∧ sharer ∈ dict_keys (activeUsers st)
                ∧ sharer ≠ msg_get "username" message)
    ∧ str_join NL matches = Ok names
    ∧ let res :=
        match matches with
        | [] => "No files found"
        | _ :: _ =>
            pretty (length matches) +:+ " files found:" +:+ NL +:+ names
        end in
      search_files st message
      = if (encoded_size res <=? MAX_DATAGRAM)%N
        then Ok (st, Some (Text res))
        else Raise OSError.
Proof.
  intros [_ Hf _]%reachable_inv Hpat Hstr.
  destruct (search_files_listing st message "" Hf Hpat Hstr)
    as (matches & names & Hnd & Hin & Hj & Hrun).
  rewrite sendto_cases in Hrun.
  exists matches, names. split_and!; [done| |done..].
  intros f. rewrite Hin, search_hit_spec. split.
  - intros (name & sharers & sharer & _ & _ & ?). by exists sharers, sharer.
  - intros (sharers & sharer & Hget & Hrest).
    assert (is_str f) as Hname.
    { rewrite Forall_forall in Hstr. apply Hstr, list_elem_of_fmap.
      apply dict_get_elem in Hget. by eexists (_, _). }
    destruct f as [|name|]; try done.
    exists name, sharers, sharer. by rewrite str_contains_empty.
Qed.

(** C8.  [share_file] always answers "File shared successfully" and a
    second identical request changes nothing more.  Afterwards the filename
    has a record, created if there was none, in which the username occurs
    exactly once; the records of the other filenames and the sessions are
    as before. *)
Theorem share_file_idempotent
    (credentials : credentials_t) (st : State) (message : message_t) :
  let username := msg_get "username" message in
  let filename := msg_get "filename" message in
  reachable credentials st →
  ∃ st1 sharers,
    share_file st message = Ok (st1, Some (Text "File shared successfully"))
    ∧ share_file st1 message = Ok (st1, Some (Text "File shared successfully"))
    ∧ dict_get filename (filesUploaded st1) = Some sharers
    ∧ length (filter (λ u, u = username) sharers) = 1
    ∧ (dict_get filename (filesUploaded st) = None → sharers = [username])
    ∧ (∀ f, f ≠ filename →
         dict_get f (filesUploaded st1) = dict_get f (filesUploaded st))
    ∧ activeUsers st1 = activeUsers st.
Proof.
  intros username filename Hinv%reachable_inv.
  destruct (share_registry_sharers username filename (filesUploaded st))
    as (sharers & Hget & Hin & Hold).
  eexists _, sharers. split; [apply share_file_eq|].
  rewrite share_file_eq. simpl. fold username. fold filename.
  rewrite share_registry_idem. split_and!; try done.
  - apply NoDup_count_one; [|done].
    destruct (share_registry_inv username filename st Hinv) as [_ _ Hs].
    simpl in Hs. rewrite Forall_forall in Hs.
    by destruct (Hs _ (dict_get_elem _ _ _ Hget)).
  - intros Hnone. by rewrite Hnone in Hold.
  - intros f Hne. by apply share_registry_get.
Qed.

(** C9 (amended).  [remove_shared_file] answers "File successfully removed
    from sharing" exactly when the filename has a record whose sharer list
    holds the username, and "File removal failed" otherwise, leaving the
    state as it was.  On success the username is taken out of the list and
    the record is deleted when the list becomes empty; sessions and other
    records are as before.  When the username was the only sharer, the
    reply that a following search for that filename builds does not list
    it, and the search answers "No files found" when no other registered
    filename contains it.  The reply built is the datagram sent when it is
    at most [MAX_DATAGRAM] bytes long. *)
Theorem remove_shared_file_outcome
    (credentials : credentials_t) (st : State) (message : message_t) :
  let username := msg_get "username" message in
  let filename := msg_get "filename" message in
  reachable credentials st →
  (¬ (∃ sharers, dict_get filename (filesUploaded st) = Some sharers
                 ∧ username ∈ sharers)
   ∧ remove_shared_file st message
     = Ok (st, Some (Text "File removal failed")))
  ∨ ∃ sharers st',
      dict_get filename (filesUploaded st) = Some sharers
      ∧ username ∈ sharers
      ∧ remove_shared_file st message
        = Ok (st', Some (Text "File successfully removed from sharing"))
      ∧ activeUsers st' = activeUsers st
      ∧ (∀ f, f ≠ filename →
           dict_get f (filesUploaded st') = dict_get f (filesUploaded st))
      ∧ match dict_get filename (filesUploaded st') with
        | None => sharers = [username]
        | Some rest =>
            rest ≠ [] ∧ (username ∉ rest)
            ∧ ∀ u, u ≠ username → u ∈ rest ↔ u ∈ sharers
        end
      ∧ (sharers = [username] →
         dict_get filename (filesUploaded st') = None
         ∧ ∀ search name,
             filename = PStr name →
             msg_get "filename" search = PStr name →
             Forall is_str (dict_keys (filesUploaded st')) →
             ∃ matches names,
               str_join NL matches = Ok names
               ∧ (let res :=
                    match matches with
                    | [] => "No files found"
                    | _ :: _ =>
                        pretty (length matches) +:+ " files found:"
                        +:+ NL +:+ names
                    end in
                  search_files st' search
                  = if (encoded_size res <=? MAX_DATAGRAM)%N
                    then Ok (st', Some (Text res))
                    else Raise OSError)
               ∧ (filename ∉ matches)
               ∧ ((∀ other, PStr other ∈ dict_keys (filesUploaded st) →
                            other ≠ name → str_contains name other = false) →
                  matches = []
                  ∧ search_files st' search
                    = Ok (st', Some (Text "No files found")))).
Proof.
  intros username filename Hreach.
  pose proof (reachable_inv _ _ Hreach) as Hinv.
  destruct (dict_get filename (filesUploaded st)) as [sharers|] eqn:Hget.
  2:{ left. split; [by intros (? & [=] & _)|].
      apply remove_shared_file_fail. fold filename. by rewrite Hget. }
  destruct (decide (username ∈ sharers)) as [Hin|Hin].
  2:{ left. split; [by intros (? & [= <-] & ?)|].
      apply remove_shared_file_fail. fold filename. rewrite Hget.
      by intros ? [= <-]. }
  right.
  destruct (remove_shared_file_success st message sharers
              (files_unique st Hinv) Hget Hin) as (rest & Hrm & Hrun).
  fold username filename in Hrm, Hrun.
  pose proof (remove_shared_file_inv _ _ _ _ Hinv Hrun) as Hinv'.
  assert (NoDup sharers) as Hnd.
  { destruct Hinv as [_ _ Hs]. rewrite Forall_forall in Hs.
    by destruct (Hs _ (dict_get_elem _ _ _ Hget)). }
  eexists sharers, _. split_and!; [done|done|exact Hrun|done| | |].
  - intros f Hne. simpl. destruct rest.
    + by rewrite dict_get_filter_ne, decide_False.
    + by rewrite dict_get_set, decide_False.
  - simpl. destruct rest as [|u rest].
    + rewrite dict_get_filter_ne, decide_True by done.
      by apply list_remove_nil.
    + rewrite dict_get_set, decide_True by done.
      destruct (list_remove_NoDup _ _ _ Hrm Hnd) as [_ Hout].
      split_and!; [done|done|]. intros u' Hne. split.
      * intros ?. by eapply list_remove_elem.
      * intros ?. by eapply list_remove_other.
  - intros ->. simpl in Hrm. rewrite decide_True in Hrm by done.
    injection Hrm as <-. simpl in *.
    split; [by rewrite dict_get_filter_ne, decide_True|].
    intros search name Hname Hpat Hstr.
    destruct (search_files_listing _ search name (files_unique _ Hinv') Hpat Hstr)
      as (matches & names & _ & Hin' & Hj & Hsearch).
    rewrite sendto_cases in Hsearch.
    exists matches, names. split_and!; [done|done| |].
    + rewrite Hin', search_hit_spec.
      intros (? & ? & ? & _ & _ & Hget' & _). simpl in Hget'.
      by rewrite dict_get_filter_ne, decide_True in Hget'.
    + intros Hother. destruct matches as [|f matches]; [done|]. exfalso.
      assert (f ∈ f :: matches) as Hf by left.
      apply Hin', search_hit_spec in Hf
        as (other & ? & ? & -> & Hc & Hget' & _).
      simpl in Hget'. rewrite dict_get_filter_ne in Hget'.
      case_decide as Hne; [done|].
      rewrite Hother in Hc; [done| |congruence].
      apply dict_get_elem in Hget'. apply list_elem_of_fmap. by eexists (_, _).
Qed.

(** C9, as stated, fails: alice is the only sharer of [a.txt] and removes
    it, yet the search for ["a.txt"] that follows finds [aa.txt], which bob
    shares, instead of answering "No files found". *)
Lemma remove_then_search_finds_other :
  reachable demo_credentials demo_state
  ∧ dict_get (PStr "a.txt") (filesUploaded demo_state) = Some [PStr "alice"]
  ∧ remove_shared_file demo_state (file_request "REMOVE" "alice" "a.txt")
    = Ok (demo_after_remove,
          Some (Text "File successfully removed from sharing"))
  ∧ search_files demo_after_remove (file_request "SEARCH" "alice" "a.txt")
    = Ok (demo_after_remove,
          Some (Text ("1 files found:" +:+ NL +:+ "aa.txt")))
  ∧ search_files demo_after_remove (file_request "SEARCH" "alice" "a.txt")
    ≠ Ok (demo_after_remove, Some (Text "No files found")).
Proof.
  split; [apply demo_reachable|]. split_and!; [reflexivity..|].
  vm_compute. discriminate.
Qed.

(** C7, as stated, fails: alice, logged in, shares seventy files whose
    names all hold the letter x; bob, logged in, searches for ["x"].  Every
    one of the seventy filenames qualifies, yet no reply lists them: the
    text is longer than a datagram can hold, [sendto] raises [OSError],
    nothing is sent and the main loop ends. *)
Lemma search_reply_too_long :
  reachable demo_credentials big_state
  ∧ Forall is_str (dict_keys (filesUploaded big_state))
  ∧ length (filter (λ f, search_hit big_state (PStr "bob") "x" f)
                   (dict_keys (filesUploaded big_state))) = 70
  ∧ search_files big_state (file_request "SEARCH" "bob" "x") = Raise OSError
  ∧ main_loop demo_credentials big_state
      [at_time 0 (file_request "SEARCH" "bob" "x")]
    = (big_state, [], Raise OSError).
Proof.
  split; [apply big_reachable|]. split; [apply big_filenames|].
  split_and!; vm_compute; reflexivity.
Qed.

(** C10, as stated, fails: in the same state bob searches with the empty
    pattern.  All seventy filenames have alice as a sharer with a session,
    yet [search_files] returns none of them: [sendto] raises [OSError] and
    nothing is sent. *)
Lemma search_empty_pattern_too_long :
  reachable demo_credentials big_state
  ∧ Forall is_str (dict_keys (filesUploaded big_state))
  ∧ Forall (λ f, dict_get f (filesUploaded big_state) = Some [PStr "alice"])
           (dict_keys (filesUploaded big_state))
  ∧ length (dict_keys (filesUploaded big_state)) = 70
  ∧ PStr "alice" ∈ dict_keys (activeUsers big_state)
  ∧ search_files big_state (file_request "SEARCH" "bob" "") = Raise OSError
  ∧ main_loop demo_credentials big_state
      [at_time 0 (file_request "SEARCH" "bob" "")]
    = (big_state, [], Raise OSError).
Proof.
  split; [apply big_reachable|]. split; [apply big_filenames|].
  split_and!.
  - apply (bool_decide_unpack _). vm_compute. exact I.
  - vm_compute. reflexivity.
  - apply (bool_decide_unpack _). vm_compute. exact I.
  - vm_compute. reflexivity.
  - vm_compute. reflexivity.
Qed.

(** ** The theorems at concrete inputs *)

Lemma process_authentication_outcome_witness :
  NoDup (dict_keys (activeUsers demo_state)).
Proof.
  destruct (process_authentication_outcome demo_credentials demo_state
              (auth_request "carol" "s3" 7003) demo_address 2)
    as (st' & status & _ & _ & Huniq).
  apply Huniq, demo_reachable.
Defined.

Lemma expiry_sweep_after_message_witness :
  ∃ st2,
    serve_one demo_credentials demo_state demo_late
    = Ok (st2, Some (Text ("1 active peers:" +:+ NL +:+ "alice")))
    ∧ activeUsers st2 = []
    ∧ filesUploaded st2 = filesUploaded demo_state.
Proof.
  destruct (expiry_sweep_after_message demo_credentials demo_state demo_late
              (data demo_late) demo_state
              (Some (Text ("1 active peers:" +:+ NL +:+ "alice")))
              demo_reachable eq_refl eq_refl)
    as (st2 & Hrun & _ & Hfiles & Husers & _).
  exists st2. split_and!; [exact Hrun | exact Husers | exact Hfiles].
Defined.

Lemma file_record_never_empty_witness : [PStr "alice"] ≠ [].
Proof.
  apply (file_record_never_empty demo_credentials demo_state (PStr "a.txt")).
  - apply demo_reachable.
  - left.
Defined.

Lemma search_files_lists_qualifying_witness :
  ∃ (matches : list pyval) (names : string),
    NoDup matches
    ∧ str_join NL matches = Ok names
    ∧ search_files demo_state (file_request "SEARCH" "carol" "a.t")
      = Ok (demo_state, Some (Text
          match matches with
          | [] => "No files found"
          | _ :: _ =>
              pretty (length matches) +:+ " files found:" +:+ NL +:+ names
          end)).
Proof.
  destruct (search_files_lists_qualifying demo_credentials demo_state
              (file_request "SEARCH" "carol" "a.t") "a.t"
              demo_reachable eq_refl demo_filenames)
    as (matches & names & Hnd & _ & Hj & Hrun).
  exists matches, names. split_and!; [exact Hnd | exact Hj |].
  simpl in Hrun. destruct (_ <=? _)%N; [exact Hrun|].
  vm_compute in Hrun. discriminate Hrun.
Defined.

Lemma search_files_empty_pattern_witness :
  ∃ (matches : list pyval) (names : string),
    NoDup matches
    ∧ str_join NL matches = Ok names
    ∧ search_files demo_state (file_request "SEARCH" "carol" "")
      = Ok (demo_state, Some (Text
          match matches with
          | [] => "No files found"
          | _ :: _ =>
              pretty (length matches) +:+ " files found:" +:+ NL +:+ names
          end)).
Proof.
  destruct (search_files_empty_pattern demo_credentials demo_state
              (file_request "SEARCH" "carol" "")
              demo_reachable eq_refl demo_filenames)
    as (matches & names & Hnd & _ & Hj & Hrun).
  exists matches, names. split_and!; [exact Hnd | exact Hj |].
  simpl in Hrun. destruct (_ <=? _)%N; [exact Hrun|].
  vm_compute in Hrun. discriminate Hrun.
Defined.

Lemma share_file_idempotent_witness :
  ∃ st1,
    share_file demo_state (file_request "SHARE" "bob" "a.txt")
    = Ok (st1, Some (Text "File shared successfully"))
    ∧ share_file st1 (file_request "SHARE" "bob" "a.txt")
      = Ok (st1, Some (Text "File shared successfully")).
Proof.
  destruct (share_file_idempotent demo_credentials demo_state
              (file_request "SHARE" "bob" "a.txt") demo_reachable)
    as (st1 & sharers & Hone & Htwo & _).
  by exists st1.
Defined.

Lemma remove_shared_file_outcome_witness :
  remove_shared_file demo_state (file_request "REMOVE" "alice" "a.txt")
  = Ok (demo_state, Some (Text "File removal failed"))
  ∨ ∃ st',
      remove_shared_file demo_state (file_request "REMOVE" "alice" "a.txt")
      = Ok (st', Some (Text "File successfully removed from sharing")).
Proof.
  destruct (remove_shared_file_outcome demo_credentials demo_state
              (file_request "REMOVE" "alice" "a.txt") demo_reachable)
    as [[_ Hfail]|(sharers & st' & _ & _ & Hrun & _)].
  - by left.
  - right. by exists st'.
Defined.

(** * Further properties of the server *)

(** ** Sessions *)

Lemma dict_keys_set_present {K V} `{EqDecision K} (k : K) (v : V) (d : dict K V) :
  dict_in k d = true → dict_keys (dict_set k v d) = dict_keys d.
Proof. intros Hin. by rewrite dict_keys_set, Hin. Qed.

Lemma dict_get_filter_keep {K V} `{EqDecision K}
    (P : K * V → Prop) `{∀ x, Decision (P x)} (k : K) (v : V) (d : dict K V) :
  NoDup (dict_keys d) → dict_get k d = Some v → P (k, v) →
  dict_get k (filter P d) = Some v.
Proof.
  intros Hnd Hget HP. apply dict_get_NoDup.
  - by apply dict_filter_keys_NoDup.
  - apply list_elem_of_filter. split; [done|]. by apply dict_get_elem.
Qed.

(** X1.  A [STATUS] message never gets a reply and never touches the file
    registry.  For a username with a session it stores the sender's address
    and the clock in that session, keeps the transfer port given at login,
    and leaves the order of the sessions and every other session as they
    were; for any other username it changes nothing. *)
Theorem status_update_refreshes
    (st : State) (message : message_t) (clientAddress : address) (now : Q) :
  let username := msg_get "username" message in
  ∃ st',
    status_update st message clientAddress now = Ok (st', None)
    ∧ filesUploaded st' = filesUploaded st
    ∧ dict_keys (activeUsers st') = dict_keys (activeUsers st)
    ∧ (∀ u, u ≠ username →
         dict_get u (activeUsers st') = dict_get u (activeUsers st))
    ∧ match dict_get username (activeUsers st) with
      | None => st' = st
      | Some old =>
          dict_get username (activeUsers st')
          = Some (clientAddress, now, old.2)
      end.
Proof.
  intros username. unfold status_update, dict_in, dict_getitem.
  fold username.
  destruct (dict_get username (activeUsers st)) as [old|] eqn:Hget; simpl;
    [|by eexists].
  eexists. split; [done|]. simpl. split_and!; [done| | |].
  - apply dict_keys_set_present. unfold dict_in. by rewrite Hget.
  - intros u Hne. by rewrite dict_get_set, decide_False.
  - by rewrite dict_get_set, decide_True.
Qed.

Lemma share_file_users st message st' sent :
  share_file st message = Ok (st', sent) → activeUsers st' = activeUsers st.
Proof. rewrite share_file_eq. by intros [= <- _]. Qed.

Lemma remove_shared_file_users st message st' sent :
  remove_shared_file st message = Ok (st', sent) →
  activeUsers st' = activeUsers st.
Proof.
  unfold remove_shared_file.
  intros ([|] & _ & Hrun)%bind_Ok; [|by injection Hrun as <-].
  apply bind_Ok in Hrun as (users & _ & Hrun).
  apply bind_Ok in Hrun as (users' & _ & Hrun). simpl in Hrun.
  apply bind_Ok in Hrun as (rest & _ & Hrun).
  by apply bind_Ok in Hrun as (files2 & _ & [= <- _]).
Qed.

(** The usernames that a request can leave in [activeUsers]: those that
    were there, and the one of an [AUTH] request found in the credentials. *)
Lemma dispatch_users credentials st message clientAddress now st' sent u :
  dispatch credentials st message clientAddress now = Ok (st', sent) →
  u ∈ dict_keys (activeUsers st') →
  u ∈ dict_keys (activeUsers st) ∨ u ∈ dict_keys credentials.
Proof.
  unfold dispatch. intros (ty & _ & Hrun)%bind_Ok.
  set (fields := fields_of message) in *.
  repeat case_decide.
  - unfold process_authentication, process_authentication_body in Hrun.
    destruct (dict_in _ (activeUsers st)); simpl in Hrun;
      [injection Hrun as <-; by left|].
    destruct (dict_in _ credentials) eqn:Hcred; simpl in Hrun;
      [|injection Hrun as <-; by left].
    destruct (dict_getitem _ credentials); simpl in Hrun;
      [|injection Hrun as <-; by left].
    case_bool_decide; injection Hrun as <- _; [by left|]. simpl.
    intros [-> | ?]%dict_set_keys; [right|by left].
    by apply dict_in_keys.
  - unfold status_update in Hrun.
    destruct (dict_in _ _) eqn:Hin; [|injection Hrun as <-; by left].
    apply bind_Ok in Hrun as (old & _ & [= <- _]). simpl.
    rewrite dict_keys_set_present by done. by left.
  - apply list_active_peers_state in Hrun as ->. by left.
  - apply list_shared_files_state in Hrun as ->. by left.
  - apply share_file_users in Hrun as ->. by left.
  - apply search_files_state in Hrun as ->. by left.
  - apply remove_shared_file_users in Hrun as ->. by left.
  - apply process_fetch_request_state in Hrun as ->. by left.
  - injection Hrun as <-. by left.
Qed.

Lemma sessions_known_aux credentials st u :
  reachable credentials st →
  u ∈ dict_keys (activeUsers st) →
  u ∈ dict_keys credentials.
Proof.
  induction 1 as [|st message clientAddress now st' sent Hst IH Hrun
                  |st currentTime st' Hst IH Hrun]; simpl.
  - by intros ?%elem_of_nil.
  - intros Hu. destruct (dispatch_users _ _ _ _ _ _ _ _ Hrun Hu); auto.
  - rewrite expiry_sweep_eq in Hrun
      by apply (users_unique st), (reachable_inv credentials), Hst.
    injection Hrun as <-. simpl.
    intros ([u' s] & -> & [_ Hin]%list_elem_of_filter)%list_elem_of_fmap.
    apply IH, list_elem_of_fmap. by exists (u', s).
Qed.

(** X2.  In every state the server can reach, a session belongs to a
    username of the credentials: no request creates a session for a
    username that is not there. *)
Theorem sessions_are_known
    (credentials : credentials_t) (st : State) (u : pyval) :
  reachable credentials st →
  u ∈ dict_keys (activeUsers st) →
  u ∈ dict_keys credentials.
Proof. apply sessions_known_aux. Qed.

Lemma sessions_are_known_witness : PStr "alice" ∈ dict_keys demo_credentials.
Proof.
  apply (sessions_are_known demo_credentials demo_state).
  - apply demo_reachable.
  - left.
Defined.

(** X3.  In every state the server can reach, the registry has one record
    per filename and no sharer list names a user twice. *)
Theorem registry_without_duplicates
    (credentials : credentials_t) (st : State) :
  reachable credentials st →
  NoDup (dict_keys (filesUploaded st))
  ∧ ∀ filename sharers,
      dict_get filename (filesUploaded st) = Some sharers → NoDup sharers.
Proof.
  intros [_ Hf Hs]%reachable_inv. split; [done|].
  intros filename sharers Hget%dict_get_elem.
  rewrite Forall_forall in Hs. by destruct (Hs _ Hget).
Qed.

Lemma registry_without_duplicates_witness :
  NoDup (dict_keys (filesUploaded demo_state)).
Proof.
  exact (proj1 (registry_without_duplicates demo_credentials demo_state
                  demo_reachable)).
Defined.

Lemma bind_Ok_l {A B} (a : A) (f : A → result B) : Ok a ≫= f = f a.
Proof. reflexivity. Qed.

Lemma status_update_eq st message clientAddress now old :
  dict_get (msg_get "username" message) (activeUsers st) = Some old →
  status_update st message clientAddress now
  = Ok ({| activeUsers :=
             dict_set (msg_get "username" message)
                      (clientAddress, now, old.2) (activeUsers st);
           filesUploaded := filesUploaded st |}, None).
Proof.
  intros Hget. unfold status_update, dict_in, dict_getitem.
  by rewrite Hget.
Qed.

Lemma dispatch_status credentials st fields clientAddress now :
  dict_get "type" fields = Some (PStr "STATUS") →
  dispatch credentials st (Object fields) clientAddress now
  = status_update st fields clientAddress now.
Proof.
  intros Hty. unfold dispatch, message_type, dict_getitem. rewrite Hty.
  rewrite bind_Ok_l. rewrite decide_False by done. by rewrite decide_True.
Qed.

(** X4.  A [STATUS] message of a user with a session, handled at a time
    [now] and followed by a clean-up that reads the clock at most 3 later,
    leaves that user with a session stamped [now] at the sender's address,
    however old the session was before; nothing is sent back. *)
Theorem heartbeat_keeps_session
    (credentials : credentials_t) (st : State) (a : arrival)
    (fields : message_t) (old : session) :
  reachable credentials st →
  data a = Object fields →
  dict_get "type" fields = Some (PStr "STATUS") →
  dict_get (msg_get "username" fields) (activeUsers st) = Some old →
  (currentTime a - now a <= 3)%Q →
  ∃ st2,
    serve_one credentials st a = Ok (st2, None)
    ∧ dict_get (msg_get "username" fields) (activeUsers st2)
      = Some (sender a, now a, old.2)
    ∧ filesUploaded st2 = filesUploaded st.
Proof.
  intros Hst Hdata Hty Hget Hage.
  pose proof (dispatch_status credentials st fields (sender a) (now a) Hty)
    as Hd.
  rewrite (status_update_eq _ _ _ _ _ Hget) in Hd.
  eexists. split.
  { apply (serve_one_eq _ _ _ (Object fields)); [done| |exact Hd].
    by rewrite Hdata. }
  simpl. split; [|done].
  apply dict_get_filter_keep.
  - apply dict_set_NoDup, (users_unique st), (reachable_inv credentials), Hst.
  - by rewrite dict_get_set, decide_True.
  - simpl. rewrite inactive_spec. unfold last_status. simpl.
    by apply Qle_not_lt.
Qed.

Lemma heartbeat_keeps_session_witness :
  ∃ st2,
    serve_one demo_credentials demo_state
      {| data := Object [("type", PStr "STATUS"); ("username", PStr "alice")];
         sender := ("10.0.0.7", 4000%Z); now := 5; currentTime := 6 |}
    = Ok (st2, None)
    ∧ dict_get (PStr "alice") (activeUsers st2)
      = Some ("10.0.0.7", 4000%Z, 5%Q, PInt 7001).
Proof.
  destruct (heartbeat_keeps_session demo_credentials demo_state
              {| data := Object [("type", PStr "STATUS");
                                 ("username", PStr "alice")];
                 sender := ("10.0.0.7", 4000%Z); now := 5; currentTime := 6 |}
              [("type", PStr "STATUS"); ("username", PStr "alice")]
              (demo_address, 0%Q, PInt 7001)
              demo_reachable eq_refl eq_refl eq_refl)
    as (st2 & Hrun & Hget & _).
  - vm_compute. discriminate.
  - by exists st2.
Defined.

(** ** Listings *)

(** X5.  With credentials whose usernames are [str], in a state the server
    can reach, [list_active_peers] builds this reply: the usernames that
    have a session, the caller left out, each once and in the order in
    which [activeUsers] holds them, preceded by their number; with no such
    username, "No active peers".  When the reply is at most [MAX_DATAGRAM]
    bytes long it is sent and the state is left as it is; a longer one is
    not sent, [sendto] raises [OSError].  Nothing else is raised. *)
Theorem list_active_peers_lists
    (credentials : credentials_t) (st : State) (message : message_t) :
  let username := msg_get "username" message in
  Forall is_str (dict_keys credentials) →
  reachable credentials st →
  ∃ peers names,
    peers `sublist_of` dict_keys (activeUsers st)
    ∧ NoDup peers
    ∧ (∀ u, u ∈ peers ↔ u ∈ dict_keys (activeUsers st) ∧ u ≠ username)
    ∧ str_join NL peers = Ok names
    ∧ let res :=
        match peers with
        | [] => "No active peers"
        | _ :: _ => pretty (length peers) +:+ " active peers:" +:+ NL +:+ names
        end in
      list_active_peers st message
      = if (encoded_size res <=? MAX_DATAGRAM)%N
        then Ok (st, Some (Text res))
        else Raise OSError.
Proof.
  intros username Hcred Hst.
  destruct (str_join_Ok NL (activePeers st username)) as [names Hnames].
  { apply Forall_forall. intros u [_ Hu]%list_elem_of_filter.
    rewrite Forall_forall in Hcred. apply Hcred.
    by eapply sessions_known_aux. }
  exists (activePeers st username), names. split_and!; [| | |done|].
  - apply sublist_filter.
  - apply NoDup_filter, (users_unique st), (reachable_inv credentials), Hst.
  - intros u. unfold activePeers. rewrite list_elem_of_filter. tauto.
  - simpl. unfold list_active_peers. fold username.
    destruct (activePeers st username); [exact (sendto_cases _ _)|].
    rewrite Hnames. exact (sendto_cases _ _).
Qed.

Lemma demo_credentials_str : Forall is_str (dict_keys demo_credentials).
Proof. repeat constructor. Qed.

Lemma list_active_peers_lists_witness :
  ∃ (peers : list pyval) (names : string),
    peers `sublist_of` [PStr "alice"; PStr "bob"]
    ∧ (PStr "alice" ∈ peers)
    ∧ str_join NL peers = Ok names
    ∧ list_active_peers demo_state [("type", PStr "LIST_PEERS");
                                    ("username", PStr "bob")]
      = Ok (demo_state, Some (Text
          match peers with
          | [] => "No active peers"
          | _ :: _ =>
              pretty (length peers) +:+ " active peers:" +:+ NL +:+ names
          end)).
Proof.
  destruct (list_active_peers_lists demo_credentials demo_state
              [("type", PStr "LIST_PEERS"); ("username", PStr "bob")]
              demo_credentials_str demo_reachable)
    as (peers & names & Hsub & _ & Hin & Hj & Hrun).
  exists peers, names. split_and!; [exact Hsub| |exact Hj|].
  - apply Hin. split; [left | discriminate].
  - simpl in Hrun. destruct (_ <=? _)%N; [exact Hrun|].
    vm_compute in Hrun. discriminate Hrun.
Defined.

(** X6.  Over a registry whose filenames are [str], in a state the server
    can reach, [list_shared_files] builds this reply: exactly the filenames
    whose sharer list holds the caller, each once and in the order in which
    [filesUploaded] holds them, preceded by their number; with no such
    filename, "No files shared".  When the reply is at most [MAX_DATAGRAM]
    bytes long it is sent and the state is left as it is; a longer one is
    not sent, [sendto] raises [OSError]. *)
Theorem list_shared_files_lists
    (credentials : credentials_t) (st : State) (message : message_t) :
  let username := msg_get "username" message in
  reachable credentials st →
  Forall is_str (dict_keys (filesUploaded st)) →
  ∃ listed names,
    listed `sublist_of` dict_keys (filesUploaded st)
    ∧ NoDup listed
    ∧ (∀ f, f ∈ listed
            ↔ ∃ sharers, dict_get f (filesUploaded st) = Some sharers
                         ∧ username ∈ sharers)
    ∧ str_join NL listed = Ok names
    ∧ let res :=
        match listed with
        | [] => "No files shared"
        | _ :: _ => pretty (length listed) +:+ " file shared:" +:+ NL +:+ names
        end in
      list_shared_files st message
      = if (encoded_size res <=? MAX_DATAGRAM)%N
        then Ok (st, Some (Text res))
        else Raise OSError.
Proof.
  intros username [_ Hf _]%reachable_inv Hstr.
  set (listed :=
    (filter (λ item : pyval * list pyval, username ∈ item.2)
            (filesUploaded st)).*1).
  destruct (str_join_Ok NL listed) as [names Hnames].
  { apply Forall_forall.
    intros f ([f' sharers] & -> & [_ Hin]%list_elem_of_filter)%list_elem_of_fmap.
    rewrite Forall_forall in Hstr. apply Hstr, list_elem_of_fmap.
    by exists (f', sharers). }
  exists listed, names. split_and!; [| | |done|].
  - apply fmap_sublist, sublist_filter.
  - by apply dict_filter_keys_NoDup.
  - intros f. unfold listed. rewrite list_elem_of_fmap. split.
    + intros ([f' sharers] & -> & [Hu Hin]%list_elem_of_filter).
      exists sharers. split; [|done]. by apply dict_get_NoDup.
    + intros (sharers & Hget%dict_get_elem & Hu). exists (f, sharers).
      split; [done|]. by apply list_elem_of_filter.
  - simpl. unfold list_shared_files. fold username. fold listed.
    destruct listed; [exact (sendto_cases _ _)|].
    rewrite Hnames. exact (sendto_cases _ _).
Qed.

Lemma list_shared_files_lists_witness :
  ∃ (listed : list pyval) (names : string),
    listed `sublist_of` [PStr "a.txt"; PStr "aa.txt"]
    ∧ (PStr "a.txt" ∈ listed)
    ∧ str_join NL listed = Ok names
    ∧ list_shared_files demo_state [("type", PStr "LIST_FILES");
                                    ("username", PStr "alice")]
      = Ok (demo_state, Some (Text
          match listed with
          | [] => "No files shared"
          | _ :: _ =>
              pretty (length listed) +:+ " file shared:" +:+ NL +:+ names
          end)).
Proof.
  destruct (list_shared_files_lists demo_credentials demo_state
              [("type", PStr "LIST_FILES"); ("username", PStr "alice")]
              demo_reachable demo_filenames)
    as (listed & names & Hsub & _ & Hin & Hj & Hrun).
  exists listed, names. split_and!; [exact Hsub| |exact Hj|].
  - apply Hin. exists [PStr "alice"]. split; [reflexivity | left].
  - simpl in Hrun. destruct (_ <=? _)%N; [exact Hrun|].
    vm_compute in Hrun. discriminate Hrun.
Defined.

(** ** Sharing and removing *)

Lemma list_remove_last x lst :
  x ∉ lst → list_remove x (lst ++ [x]) = Ok lst.
Proof.
  induction lst as [|y lst IH]; simpl.
  - intros _. by rewrite decide_True.
  - intros [Hne Hx]%not_elem_of_cons.
    rewrite decide_False by done. by rewrite IH.
Qed.

(** X7.  In a state the server can reach, when the user is not yet a sharer
    of the filename, a [SHARE] followed by a [REMOVE] of the same user and
    filename succeeds twice and gives back the state as it was before the
    two, the order of the registry included. *)
Theorem share_then_remove_restores
    (credentials : credentials_t) (st : State) (message : message_t) :
  let username := msg_get "username" message in
  let filename := msg_get "filename" message in
  reachable credentials st →
  (∀ sharers, dict_get filename (filesUploaded st) = Some sharers →
              username ∉ sharers) →
  ∃ st1,
    share_file st message = Ok (st1, Some (Text "File shared successfully"))
    ∧ remove_shared_file st1 message
      = Ok (st, Some (Text "File successfully removed from sharing")).
Proof.
  intros username filename Hinv%reachable_inv Hnew.
  eexists. split; [apply share_file_eq|].
  pose proof (share_registry_inv username filename st Hinv) as Hinv1.
  fold username filename.
  destruct (share_registry_sharers username filename (filesUploaded st))
    as (users & Hget1 & Hin1 & Hold).
  edestruct (remove_shared_file_success
               {| activeUsers := activeUsers st;
                  filesUploaded :=
                    share_registry username filename (filesUploaded st) |}
               message users (files_unique _ Hinv1) Hget1 Hin1)
    as (rest & Hrm & ->).
  fold username filename in Hrm |- *. simpl.
  do 2 f_equal. destruct st as [users0 files0]. simpl in *. f_equal.
  unfold share_registry in *.
  destruct (dict_get filename files0) as [old|] eqn:Hget.
  - rewrite bool_decide_false in * by auto. subst users.
    rewrite list_remove_last in Hrm by auto. injection Hrm as <-.
    destruct old as [|o old].
    { destruct Hinv as [_ _ Hs]. simpl in Hs. rewrite Forall_forall in Hs.
      by destruct (Hs _ (dict_get_elem _ _ _ Hget)). }
    rewrite dict_set_set. by apply dict_set_same.
  - subst users. simpl in Hrm. rewrite decide_True in Hrm by done.
    injection Hrm as <-. rewrite dict_filter_set.
    apply dict_filter_absent. by apply dict_get_None.
Qed.

Lemma share_then_remove_restores_witness :
  ∃ st1,
    share_file demo_state (file_request "SHARE" "bob" "a.txt")
    = Ok (st1, Some (Text "File shared successfully"))
    ∧ remove_shared_file st1 (file_request "SHARE" "bob" "a.txt")
      = Ok (demo_state, Some (Text "File successfully removed from sharing")).
Proof.
  apply (share_then_remove_restores demo_credentials demo_state
           (file_request "SHARE" "bob" "a.txt") demo_reachable).
  intros sharers [= <-] [=]%list_elem_of_singleton.
Defined.

(** X8.  In a state the server can reach, a [REMOVE] that is repeated fails
    the second time and changes nothing then: whatever the first answer,
    the same request sent again is answered "File removal failed" and
    leaves the state as the first left it. *)
Theorem remove_shared_file_repeated
    (credentials : credentials_t) (st : State) (message : message_t) :
  reachable credentials st →
  ∃ st' reply,
    remove_shared_file st message = Ok (st', Some (Text reply))
    ∧ remove_shared_file st' message
      = Ok (st', Some (Text "File removal failed")).
Proof.
  intros Hinv%reachable_inv.
  set (username := msg_get "username" message).
  set (filename := msg_get "filename" message).
  assert (∀ st0,
    (∀ users, dict_get filename (filesUploaded st0) = Some users →
              username ∉ users) →
    remove_shared_file st0 message
    = Ok (st0, Some (Text "File removal failed"))) as Hfail
    by (intros; by apply remove_shared_file_fail).
  destruct (dict_get filename (filesUploaded st)) as [sharers|] eqn:Hget.
  2:{ exists st, "File removal failed".
      split; apply Hfail; intros; congruence. }
  destruct (decide (username ∈ sharers)) as [Hin|Hin].
  2:{ exists st, "File removal failed".
      split; apply Hfail; intros users Hu; rewrite Hget in Hu;
        by injection Hu as <-. }
  destruct (remove_shared_file_success st message sharers
              (files_unique st Hinv) Hget Hin) as (rest & Hrm & Hrun).
  fold username filename in Hrm, Hrun.
  eexists _, _. split; [exact Hrun|]. apply Hfail. simpl.
  destruct rest as [|u rest].
  - intros users. by rewrite dict_get_filter_ne, decide_True.
  - intros users. rewrite dict_get_set, decide_True by done. intros [= <-].
    assert (NoDup sharers) as Hnd.
    { destruct Hinv as [_ _ Hs]. rewrite Forall_forall in Hs.
      by destruct (Hs _ (dict_get_elem _ _ _ Hget)). }
    by destruct (list_remove_NoDup _ _ _ Hrm Hnd).
Qed.

Lemma remove_shared_file_repeated_witness :
  ∃ st' reply,
    remove_shared_file demo_state (file_request "REMOVE" "alice" "a.txt")
    = Ok (st', Some (Text reply))
    ∧ remove_shared_file st' (file_request "REMOVE" "alice" "a.txt")
      = Ok (st', Some (Text "File removal failed")).
Proof.
  exact (remove_shared_file_repeated demo_credentials demo_state
           (file_request "REMOVE" "alice" "a.txt") demo_reachable).
Defined.

(** ** A registry with a filename that is not a [str] *)







(** ** Clean-ups, new logins and fetches *)

(** X11.  In a state the server can reach, a clean-up at a later clock
    reading removes whatever an earlier one removes: two clean-ups in a row
    leave the state that the later one alone leaves. *)
Theorem expiry_sweep_later_subsumes
    (credentials : credentials_t) (st : State) (t t' : Q) :
  reachable credentials st →
  (t <= t')%Q →
  ∃ st1 st2,
    expiry_sweep t st = Ok st1
    ∧ expiry_sweep t' st1 = Ok st2
    ∧ expiry_sweep t' st = Ok st2.
Proof.
  intros [Hu _ _]%reachable_inv Hle.
  eexists _, _. split; [by apply expiry_sweep_eq|].
  rewrite !expiry_sweep_eq by (try done; by apply dict_filter_keys_NoDup).
  split; [done|]. simpl. do 2 f_equal.
  rewrite list_filter_filter. apply list_filter_iff. intros [u s]. simpl.
  rewrite !inactive_spec. split; [|tauto]. intros Hage. split; [done|].
  intros Hold. apply Hage. lra.
Qed.

Lemma expiry_sweep_later_subsumes_witness :
  ∃ st1 st2,
    expiry_sweep 2 demo_state = Ok st1
    ∧ expiry_sweep 5 st1 = Ok st2
    ∧ expiry_sweep 5 demo_state = Ok st2.
Proof.
  apply (expiry_sweep_later_subsumes demo_credentials demo_state 2 5
           demo_reachable).
  vm_compute. discriminate.
Defined.

(** X12.  In a state the server can reach, a user whose session a clean-up
    removes can log in again with the stored password: the answer is "OK",
    the new session holds the sender's address, the clock and the transfer
    port of the new request, and the file registry, with the records that
    name the user, is the one from before the clean-up. *)
Theorem login_again_after_eviction
    (credentials : credentials_t) (st : State) (t : Q)
    (message : message_t) (clientAddress : address) (now : Q)
    (old : session) (stored : string) :
  let username := msg_get "username" message in
  reachable credentials st →
  dict_get username (activeUsers st) = Some old →
  (3 < t - last_status old)%Q →
  dict_get username credentials = Some stored →
  msg_get "password" message = PStr stored →
  ∃ st1 st2,
    expiry_sweep t st = Ok st1
    ∧ dict_get username (activeUsers st1) = None
    ∧ process_authentication credentials st1 message clientAddress now
      = Ok (st2, Some (Text "OK"))
    ∧ dict_get username (activeUsers st2)
      = Some (clientAddress, now, msg_get "tcpPort" message)
    ∧ filesUploaded st2 = filesUploaded st.
Proof.
  intros username [Hu _ _]%reachable_inv Hget Hage Hcred Hpw.
  eexists _, _. split; [by apply expiry_sweep_eq|]. simpl.
  assert (dict_get username
            (filter (λ item, ¬ inactive t item.2) (activeUsers st)) = None)
    as Hgone.
  { apply dict_get_None.
    intros ([u' s'] & Hu' & [Hkeep Hin']%list_elem_of_filter)%list_elem_of_fmap.
    simpl in *. subst u'. apply Hkeep, inactive_spec.
    by rewrite (dict_unique_value _ _ _ _ Hu Hin' (dict_get_elem _ _ _ Hget)). }
  split; [done|].
  unfold process_authentication, process_authentication_body, dict_in,
    dict_getitem. fold username. simpl.
  rewrite Hgone, Hcred, Hpw. simpl.
  rewrite bool_decide_false by auto. simpl.
  split_and!; [done| |done]. simpl. by rewrite dict_get_set, decide_True.
Qed.

Lemma login_again_after_eviction_witness :
  ∃ st1 st2,
    expiry_sweep 4 demo_state = Ok st1
    ∧ process_authentication demo_credentials st1
        (auth_request "alice" "s1" 7009) ("10.0.0.7", 4000%Z) 4
      = Ok (st2, Some (Text "OK"))
    ∧ filesUploaded st2 = filesUploaded demo_state.
Proof.
  destruct (login_again_after_eviction demo_credentials demo_state 4
              (auth_request "alice" "s1" 7009) ("10.0.0.7", 4000%Z) 4
              (demo_address, 0%Q, PInt 7001) "s1"
              demo_reachable eq_refl)
    as (st1 & st2 & Hs & _ & Ha & _ & Hf).
  - vm_compute. reflexivity.
  - reflexivity.
  - reflexivity.
  - by exists st1, st2.
Defined.

Lemma fetch_scan_found st username sharers sharer host port :
  fetch_scan st username sharers = Ok (Some (PeerInfo sharer host port)) →
  ∃ pre post s,
    sharers = pre ++ sharer :: post
    ∧ (∀ x, x ∈ pre → live_other st username x = false)
    ∧ live_other st username sharer = true
    ∧ dict_get sharer (activeUsers st) = Some s
    ∧ host = s.1.1.1 ∧ port = s.2.
Proof.
  induction sharers as [|x sharers IH]; simpl; [done|].
  destruct (live_other st username x) eqn:Hx.
  - unfold dict_getitem.
    destruct (dict_get x (activeUsers st)) as [[[a t] p]|] eqn:Hget; [|done].
    simpl. intros [= <- <- <-].
    exists [], sharers, (a, t, p). split_and!; try done.
    by intros y ?%elem_of_nil.
  - intros (pre & post & s & -> & Hpre & Hrest)%IH.
    exists (x :: pre), post, s. split_and!; [done| |apply Hrest..].
    intros y [->|Hy]%elem_of_cons; auto.
Qed.

(** X13.  When a fetch is answered with a sharer, a [STATUS] message that
    names this sharer, from whatever address, changes the answer to the
    same fetch: the host becomes the one the [STATUS] came from, the
    transfer port stays the one given at login. *)
Theorem status_update_redirects_fetch
    (st : State) (fetch heartbeat : message_t) (clientAddress : address)
    (now : Q) (sharer : pyval) (host : string) (port : pyval) :
  process_fetch_request st fetch = Ok (st, Some (PeerInfo sharer host port)) →
  msg_get "username" heartbeat = sharer →
  ∃ st',
    status_update st heartbeat clientAddress now = Ok (st', None)
    ∧ process_fetch_request st' fetch
      = Ok (st', Some (PeerInfo sharer clientAddress.1 port)).
Proof.
  intros Hfetch Hname.
  unfold process_fetch_request, dict_in, dict_getitem in Hfetch.
  destruct (dict_get _ (filesUploaded st)) as [sharers|] eqn:Hrec;
    simpl in Hfetch; [|done].
  destruct (fetch_scan st _ sharers) as [[reply|]|] eqn:Hscan;
    simpl in Hfetch; try done.
  injection Hfetch as ->.
  apply fetch_scan_found in Hscan
    as (pre & post & s & -> & Hpre & Hlive & Hget & _ & ->).
  rewrite <- Hname in Hget.
  eexists. split; [by apply status_update_eq|].
  set (st' := {| activeUsers := _; filesUploaded := _ |}).
  assert (∀ x, live_other st' (msg_get "username" fetch) x
               = live_other st (msg_get "username" fetch) x) as Hsame.
  { intros x. unfold live_other, dict_in. simpl.
    rewrite dict_get_set. case_decide as Hx; [|done].
    subst x. by rewrite Hget. }
  unfold process_fetch_request, dict_in, dict_getitem. simpl.
  rewrite Hrec. simpl.
  rewrite (fetch_scan_first st' _ pre sharer post (clientAddress, now, s.2)).
  - done.
  - intros x Hx. rewrite Hsame. by apply Hpre.
  - by rewrite Hsame.
  - simpl. rewrite dict_get_set. by rewrite decide_True.
Qed.

Lemma status_update_redirects_fetch_witness :
  ∃ st',
    status_update demo_state
      [("type", PStr "STATUS"); ("username", PStr "alice")]
      ("10.0.0.7", 4000%Z) 2
    = Ok (st', None)
    ∧ process_fetch_request st' (file_request "FETCH" "bob" "a.txt")
      = Ok (st', Some (PeerInfo (PStr "alice") "10.0.0.7" (PInt 7001))).
Proof.
  apply (status_update_redirects_fetch demo_state
           (file_request "FETCH" "bob" "a.txt")
           [("type", PStr "STATUS"); ("username", PStr "alice")]
           ("10.0.0.7", 4000%Z) 2 (PStr "alice") "127.0.0.1" (PInt 7001));
    reflexivity.
Defined.

(** * Properties of the start-up *)

(** ** Cutting a line *)

Lemma py_isspace_SP : py_isspace SP = true.
Proof. reflexivity. Qed.

Lemma str_contains_space_cons c rest :
  str_contains " " (String c rest)
  = bool_decide (c = SP) || str_contains " " rest.
Proof.
  cbn [str_contains]. f_equal.
  change (String.prefix " " (String c rest))
    with (if Ascii.ascii_dec SP c then String.prefix "" rest else false).
  destruct (Ascii.ascii_dec SP c) as [<-|Hne].
  - rewrite bool_decide_true by done. by destruct rest.
  - by rewrite bool_decide_false by (by intros ->).
Qed.

(** [s.split(' ', 1)] has one part when [s] holds no space, and otherwise
    the two parts around the first space. *)
Lemma py_split_1_spec s :
  (str_contains " " s = false ∧ py_split_1 s = [s])
  ∨ ∃ u p, s = u +:+ String SP p
      ∧ str_contains " " u = false
      ∧ py_split_1 s = [u; p].
Proof.
  induction s as [|c s IH]; [by left|].
  rewrite str_contains_space_cons. cbn [py_split_1].
  case_bool_decide as Hc; simpl.
  - subst c. right. by exists "", s.
  - destruct IH as [[Hno ->]|(u & p & -> & Hno & ->)].
    + by left.
    + right. exists (String c u), p. rewrite append_cons.
      split_and!; [done| |done].
      by rewrite str_contains_space_cons, bool_decide_false, Hno.
Qed.

Lemma str_contains_space_app u p :
  str_contains " " (u +:+ String SP p) = true.
Proof. apply str_contains_spec. by exists u, p. Qed.

(** The cut is the only one: the first part is what precedes the first
    space. *)
Lemma py_split_1_cut u p :
  str_contains " " u = false → py_split_1 (u +:+ String SP p) = [u; p].
Proof.
  intros Hno.
  destruct (py_split_1_spec (u +:+ String SP p))
    as [[Habs _]|(u' & p' & Heq & Hno' & ->)].
  { by rewrite str_contains_space_app in Habs. }
  revert u' Heq Hno'. induction u as [|c u IH]; intros [|c' u'] Heq Hno'.
  - rewrite !append_nil in Heq. by injection Heq as <-.
  - rewrite append_nil, append_cons in Heq. injection Heq as <- _.
    rewrite str_contains_space_cons, bool_decide_true in Hno' by done.
    done.
  - rewrite append_nil, append_cons in Heq. injection Heq as -> _.
    rewrite str_contains_space_cons, bool_decide_true in Hno by done.
    done.
  - rewrite !append_cons in Heq. injection Heq as <- Heq.
    rewrite str_contains_space_cons in Hno, Hno'.
    apply orb_false_iff in Hno as [_ Hno], Hno' as [_ Hno'].
    by injection (IH Hno u' Heq Hno') as -> ->.
Qed.

(** ** Stripping *)

Lemma py_rstrip_cons c s :
  py_rstrip s ≠ "" → py_rstrip (String c s) = String c (py_rstrip s).
Proof. cbn [py_rstrip]. by destruct (py_rstrip s). Qed.

Lemma py_rstrip_head c s :
  py_rstrip (String c s) = "" ∨ ∃ r, py_rstrip (String c s) = String c r.
Proof.
  cbn [py_rstrip]. destruct (py_rstrip s); [|by eauto].
  destruct (py_isspace c); by eauto.
Qed.

Lemma py_rstrip_idem s : py_rstrip (py_rstrip s) = py_rstrip s.
Proof.
  induction s as [|c s IH]; [done|]. cbn [py_rstrip].
  destruct (py_rstrip s) as [|c' r] eqn:Hr.
  - destruct (py_isspace c) eqn:Hc; [done|]. cbn [py_rstrip]. by rewrite Hc.
  - rewrite py_rstrip_cons; by rewrite IH.
Qed.

Lemma py_lstrip_head s c r : py_lstrip s = String c r → py_isspace c = false.
Proof.
  induction s as [|c' s IH]; [done|]. cbn [py_lstrip].
  destruct (py_isspace c') eqn:Hc; [done|]. by intros [= <- _].
Qed.

(** A stripped text does not begin with whitespace. *)
Lemma py_strip_head line c r : py_strip line = String c r → py_isspace c = false.
Proof.
  unfold py_strip. destruct (py_lstrip line) as [|c' s] eqn:Hl; [done|].
  destruct (py_rstrip_head c' s) as [->|[r' ->]]; [done|].
  intros [= <- _]. by eapply py_lstrip_head.
Qed.

(** What follows a space in a text without trailing whitespace is not
    empty and has no trailing whitespace either. *)
Lemma py_rstrip_after_space u p :
  py_rstrip (u +:+ String SP p) = u +:+ String SP p →
  p ≠ "" ∧ py_rstrip p = p.
Proof.
  induction u as [|c u IH].
  - rewrite append_nil. cbn [py_rstrip].
    destruct (py_rstrip p) as [|c' r] eqn:Hr.
    + by rewrite py_isspace_SP.
    + intros [= <-]. done.
  - rewrite append_cons. cbn [py_rstrip].
    destruct (py_rstrip (u +:+ String SP p)) as [|c' r] eqn:Hr.
    + destruct (py_isspace c); [done|]. intros [= Habs].
      by destruct u.
    + intros [= Heq]. by apply IH.
Qed.

Lemma load_line_spec (credentials credentials' : credentials_t) (line : string) :
  (load_line credentials line = Ok credentials'
   ↔ ∃ username password,
       py_strip line = username +:+ " " +:+ password
       ∧ str_contains " " username = false
       ∧ credentials' = dict_set (PStr username) password credentials)
  ∧ ∀ username password,
      py_strip line = username +:+ " " +:+ password →
      username ≠ "" ∧ password ≠ "" ∧ py_rstrip password = password.
Proof.
  assert (∀ u p, py_strip line = u +:+ String SP p →
                 u ≠ "" ∧ p ≠ "" ∧ py_rstrip p = p) as Hparts.
  { intros u p Heq. split.
    - intros ->. rewrite append_nil in Heq.
      apply py_strip_head in Heq. by rewrite py_isspace_SP in Heq.
    - apply (py_rstrip_after_space u). rewrite <- Heq.
      apply py_rstrip_idem. }
  split; [|exact Hparts]. unfold load_line. split.
  - destruct (py_split_1_spec (py_strip line))
      as [[_ ->]|(u & p & Heq & Hno & ->)]; [done|].
    simpl. intros [= <-]. exists u, p.
    destruct (Hparts u p Heq) as (_ & _ & ->). done.
  - intros (u & p & Heq & Hno & ->).
    destruct (Hparts u p Heq) as (_ & _ & Hp).
    change (" " +:+ p) with (String SP p) in Heq.
    rewrite Heq, py_split_1_cut by done. simpl. by rewrite Hp.
Qed.

(** X14.  A line of the credentials file is accepted exactly when, once
    stripped, it holds a space; the username is then the text before the
    first space and the password all the text after it, further spaces
    included, stored under the username in place of any earlier password.
    A username so read is never empty; a password is never empty and has no
    trailing whitespace. *)
Theorem load_line_stores
    (credentials credentials' : credentials_t) (line : string) :
  (load_line credentials line = Ok credentials'
   ↔ ∃ username password,
       py_strip line = username +:+ " " +:+ password
       ∧ str_contains " " username = false
       ∧ credentials' = dict_set (PStr username) password credentials)
  ∧ ∀ username password,
      py_strip line = username +:+ " " +:+ password →
      username ≠ "" ∧ password ≠ "" ∧ py_rstrip password = password.
Proof. apply load_line_spec. Qed.

Lemma load_line_stores_witness :
  load_line [(PStr "bob", "old")] ("bob  s 2 " +:+ NL)
  = Ok [(PStr "bob", " s 2")].
Proof.
  apply (load_line_stores [(PStr "bob", "old")] [(PStr "bob", " s 2")]
           ("bob  s 2 " +:+ NL)).
  by exists "bob", " s 2".
Defined.

(** ** Reading a whole file *)

Lemma load_lines_app credentials before after :
  load_lines credentials (before ++ after)
  = credentials' ← load_lines credentials before; load_lines credentials' after.
Proof.
  revert credentials. induction before as [|line before IH]; intros c; [done|].
  simpl. destruct (load_line c line) as [c'|e]; [|done]. apply IH.
Qed.

Lemma load_line_bad credentials line :
  str_contains " " (py_strip line) = false →
  load_line credentials line = Raise ValueError.
Proof.
  intros Hno. unfold load_line.
  destruct (py_split_1_spec (py_strip line))
    as [[_ ->]|(u & p & Heq & _ & _)]; [done|].
  by rewrite Heq, str_contains_space_app in Hno.
Qed.

Lemma load_lines_bad credentials lines bad :
  bad ∈ lines → str_contains " " (py_strip bad) = false →
  ∃ e, load_lines credentials lines = Raise e.
Proof.
  intros Hin Hno. revert credentials.
  induction lines as [|line lines IH]; intros c; [by apply elem_of_nil in Hin|].
  simpl. apply elem_of_cons in Hin as [<-|Hin].
  - rewrite load_line_bad by done. by eexists.
  - destruct (load_line c line) as [c'|e]; [by apply IH | by eexists].
Qed.

(** X15.  When a line of the credentials file that is read, once stripped,
    holds no space (a blank line, a username alone), the server exits at
    start-up.  This holds for [server/credentials.txt] whenever it exists,
    whatever [credentials.txt] holds, and for [credentials.txt] when the
    first file does not exist. *)
Theorem load_credentials_bad_line
    (server_file local_file : option (list string))
    (lines : list string) (bad : string) :
  server_file = Some lines ∨ (server_file = None ∧ local_file = Some lines) →
  bad ∈ lines →
  str_contains " " (py_strip bad) = false →
  load_credentials server_file local_file = None.
Proof.
  intros Hfile Hin Hno. unfold load_credentials.
  destruct (load_lines_bad [] lines bad Hin Hno) as [e He].
  destruct Hfile as [-> | [-> ->]]; by rewrite He.
Qed.

Lemma load_credentials_bad_line_witness :
  load_credentials (Some ["alice s1" +:+ NL; NL; "bob s2" +:+ NL])
                   (Some ["alice s1" +:+ NL])
  = None.
Proof.
  apply (load_credentials_bad_line _ _
           ["alice s1" +:+ NL; NL; "bob s2" +:+ NL] NL).
  - by left.
  - right. left.
  - reflexivity.
Defined.

Lemma load_line_loaded credentials line credentials' :
  load_line credentials line = Ok credentials' →
  NoDup (dict_keys credentials) ∧ Forall loaded_pair credentials →
  NoDup (dict_keys credentials') ∧ Forall loaded_pair credentials'.
Proof.
  intros Hrun [Hnd Hall].
  destruct (load_line_spec credentials credentials' line) as [Hiff Hparts].
  apply Hiff in Hrun as (u & p & Heq & Hno & ->).
  destruct (Hparts u p Heq) as (Hu & Hp & Hrs).
  split; [by apply dict_set_NoDup|].
  apply dict_set_Forall; [done|]. by exists u.
Qed.

Lemma load_lines_loaded credentials lines credentials' :
  load_lines credentials lines = Ok credentials' →
  NoDup (dict_keys credentials) ∧ Forall loaded_pair credentials →
  NoDup (dict_keys credentials') ∧ Forall loaded_pair credentials'.
Proof.
  revert credentials. induction lines as [|line lines IH]; intros c; simpl.
  - by intros [= <-].
  - intros (c1 & Hline & Hrest)%bind_Ok Hc.
    eapply IH; [done|]. by eapply load_line_loaded.
Qed.

Lemma load_credentials_Some server_file local_file credentials :
  load_credentials server_file local_file = Some credentials →
  ∃ lines, load_lines [] lines = Ok credentials.
Proof.
  unfold load_credentials.
  destruct server_file as [lines|]; [|destruct local_file as [lines|]];
    [| |done]; exists lines; by destruct (load_lines [] lines) as [c|];
    simplify_eq.
Qed.

(** X16.  When the start-up ends with credentials, the usernames read are
    [str], each with one password; no username is empty or holds a space,
    and no password is empty or ends in whitespace. *)
Theorem load_credentials_pairs
    (server_file local_file : option (list string))
    (credentials : credentials_t) :
  load_credentials server_file local_file = Some credentials →
  NoDup (dict_keys credentials)
  ∧ ∀ username password,
      dict_get username credentials = Some password →
      ∃ name, username = PStr name
        ∧ name ≠ "" ∧ str_contains " " name = false
        ∧ password ≠ "" ∧ py_rstrip password = password.
Proof.
  intros (lines & Hrun)%load_credentials_Some.
  destruct (load_lines_loaded [] lines credentials Hrun) as [Hnd Hall];
    [by split; constructor|].
  split; [done|]. intros username password Hget%dict_get_elem.
  rewrite Forall_forall in Hall. exact (Hall _ Hget).
Qed.

Lemma load_credentials_pairs_witness :
  NoDup (dict_keys [(PStr "alice", "s3"); (PStr "bob", " s 2")]).
Proof.
  apply (load_credentials_pairs
           (Some ["alice s1" +:+ NL; "bob  s 2 " +:+ NL; "alice s3"]) None).
  reflexivity.
Defined.

Lemma load_lines_other credentials lines credentials' u :
  load_lines credentials lines = Ok credentials' →
  (∀ line p, line ∈ lines → py_strip line ≠ u +:+ " " +:+ p) →
  dict_get (PStr u) credentials' = dict_get (PStr u) credentials.
Proof.
  revert credentials. induction lines as [|line lines IH]; intros c; simpl.
  - by intros [= <-].
  - intros (c1 & Hline & Hrest)%bind_Ok Hother.
    rewrite (IH c1) by (try done; intros; apply Hother; by right).
    destruct (load_line_spec c c1 line) as [Hiff _].
    apply Hiff in Hline as (u' & p' & Heq & _ & ->).
    rewrite dict_get_set, decide_False; [done|].
    intros [= ->]. by apply (Hother line p'); [left|].
Qed.

(** X17.  When a username occurs on several lines of the credentials file,
    the password of its last line is the one kept: a line that is read
    decides the password of its username unless a later line names the
    same username. *)
Theorem load_lines_last_wins
    (credentials credentials' : credentials_t)
    (before after : list string) (line username password : string) :
  load_lines credentials (before ++ line :: after) = Ok credentials' →
  py_strip line = username +:+ " " +:+ password →
  str_contains " " username = false →
  (∀ later p, later ∈ after → py_strip later ≠ username +:+ " " +:+ p) →
  dict_get (PStr username) credentials' = Some password.
Proof.
  rewrite load_lines_app. intros (c0 & _ & Hrun)%bind_Ok Heq Hno Hafter.
  simpl in Hrun. apply bind_Ok in Hrun as (c1 & Hline & Hrest).
  rewrite (load_lines_other c1 after credentials' username Hrest Hafter).
  destruct (load_line_spec c0 c1 line) as [Hiff _].
  apply Hiff in Hline as (u' & p' & Heq' & Hno' & ->).
  rewrite Heq in Heq'.
  change (username +:+ " " +:+ password)
    with (username +:+ String SP password) in Heq'.
  change (u' +:+ " " +:+ p') with (u' +:+ String SP p') in Heq'.
  pose proof (py_split_1_cut username password Hno) as Hcut.
  rewrite Heq', py_split_1_cut in Hcut by done. injection Hcut as -> ->.
  by rewrite dict_get_set, decide_True.
Qed.

Lemma load_lines_last_wins_witness :
  dict_get (PStr "alice") [(PStr "alice", "s3"); (PStr "bob", "s2")]
  = Some "s3".
Proof.
  apply (load_lines_last_wins [] _ ["alice s1" +:+ NL; "bob s2" +:+ NL] []
           "alice s3" "alice" "s3"); try reflexivity.
  by intros later p ?%elem_of_nil.
Defined.

(** * Properties of the peer *)

(** ** Commands *)

Lemma str_take_length n s :
  String.length (str_take n s) = Nat.min n (String.length s).
Proof.
  revert s. induction n as [|n IH]; intros [|c s]; simpl; try done.
  by rewrite IH.
Qed.

Lemma cmdPrefix_length command : (String.length (cmdPrefix command) ≤ 5)%nat.
Proof.
  unfold cmdPrefix. case_bool_decide; [|lia].
  rewrite str_take_length. lia.
Qed.

Lemma cmdPrefix_short command prefix :
  cmdPrefix command = prefix → (String.length prefix < 5)%nat →
  command = prefix.
Proof.
  unfold cmdPrefix. case_bool_decide as Hlen; [|done].
  intros <-. rewrite str_take_length. lia.
Qed.

(** X18.  No command makes the peer send a [REMOVE] request: the test for
    [remove] compares six characters with a prefix of at most five.  A
    [SEARCH] request is sent for the command [find] alone and then carries
    the empty pattern: [find] followed by a pattern sends nothing. *)
Theorem client_command_remove_find
    (path_exists : string → bool) (username command : string)
    (message : message_t) :
  client_command path_exists username command = Request message
  ∨ client_command path_exists username command = FetchRequest message →
  dict_get "type" message ≠ Some (PStr "REMOVE")
  ∧ (dict_get "type" message = Some (PStr "SEARCH") →
     command = "find" ∧ msg_get "filename" message = PStr "").
Proof.
  unfold client_command. intros Hsent.
  repeat case_bool_decide;
    try (destruct (negb (path_exists _)));
    destruct Hsent as [Hsent|Hsent]; try done;
    injection Hsent as <-; simpl; try done.
  - split; [done|]. intros _.
    assert (command = "find") as -> by (by apply cmdPrefix_short; [|simpl; lia]).
    done.
  - pose proof (cmdPrefix_length command) as Hlen.
    match goal with
    | Hremove : cmdPrefix command = "remove" |- _ =>
        rewrite Hremove in Hlen
    end.
    simpl in Hlen. lia.
Qed.

Lemma client_command_remove_find_witness :
  dict_get "type" (file_request "SEARCH" "alice" "")
  ≠ Some (PStr "REMOVE").
Proof.
  apply (client_command_remove_find (λ _, true) "alice" "find"
           (file_request "SEARCH" "alice" "")).
  by left.
Defined.

(** ** Sending a file *)

Lemma take_1024_nil (rest : list Byte.byte) : take 1024 rest = [] → rest = [].
Proof. by destruct rest. Qed.

Lemma chunk_count_step n :
  n ≠ 0 → S ((n - 1024 + 1023) `div` 1024) = (n + 1023) `div` 1024.
Proof.
  intros Hn. destruct (decide (n ≤ 1024)%nat) as [Hle|Hgt].
  - replace (n - 1024 + 1023) with 1023 by lia.
    rewrite Nat.div_small by lia.
    apply (Nat.div_unique _ _ _ (n - 1)); lia.
  - replace (n + 1023) with ((n - 1024 + 1023) + 1 * 1024) by lia.
    rewrite Nat.div_add by lia. lia.
Qed.

(** What the reads of the upload loop give when [fuel] exceeds the number
    of bytes left. *)
Lemma read_chunks_spec fuel (rest : list Byte.byte) :
  length rest < fuel →
  concat (read_chunks fuel rest) = rest
  ∧ Forall (λ fileData, (1 ≤ length fileData ≤ 1024)%nat) (read_chunks fuel rest)
  ∧ length (read_chunks fuel rest) = (length rest + 1023) `div` 1024.
Proof.
  revert rest. induction fuel as [|fuel IH]; intros rest Hfuel; [lia|].
  cbn [read_chunks].
  destruct (take 1024 rest) as [|b fileData] eqn:Htake.
  { apply take_1024_nil in Htake as ->. by split_and!. }
  assert (length (b :: fileData) = length rest `min` 1024) as Hlen
    by (rewrite <- Htake, length_take; lia).
  assert (length rest ≠ 0) as Hrest by (by destruct rest).
  destruct (IH (drop 1024 rest)) as (Hcat & Hall & Hcount).
  { rewrite length_drop. lia. }
  split_and!.
  - cbn [concat]. by rewrite Hcat, <- Htake, take_drop.
  - constructor; [lia | done].
  - cbn [length]. rewrite Hcount, length_drop. by apply chunk_count_step.
Qed.

Lemma read_chunks_fuel fuel fuel' (rest : list Byte.byte) :
  length rest < fuel → length rest < fuel' →
  read_chunks fuel rest = read_chunks fuel' rest.
Proof.
  revert fuel' rest. induction fuel as [|fuel IH]; intros [|fuel'] rest;
    try lia.
  intros Hfuel Hfuel'. cbn [read_chunks].
  destruct (take 1024 rest) as [|b fileData] eqn:Htake; [done|]. f_equal.
  assert (length rest ≠ 0)
    by (destruct rest; [by rewrite take_nil in Htake | done]).
  apply IH; rewrite length_drop; lia.
Qed.

(** X20.  The upload loop sends the file and nothing else: the chunks given
    to [sendall], put end to end, are the content; each has between 1 and
    1024 bytes; their number is the size divided by 1024, rounded up.  More
    reads than the file has bytes change nothing. *)
Theorem send_file_chunks (content : list Byte.byte) :
  concat (send_file content) = content
  ∧ Forall (λ fileData, (1 ≤ length fileData ≤ 1024)%nat) (send_file content)
  ∧ length (send_file content) = (length content + 1023) `div` 1024
  ∧ ∀ fuel, length content < fuel → read_chunks fuel content = send_file content.
Proof.
  unfold send_file.
  destruct (read_chunks_spec (S (length content)) content) as (? & ? & ?);
    [lia|].
  split_and!; try done. intros fuel Hfuel. apply read_chunks_fuel; lia.
Qed.

(** ** Receiving a file *)

(** The bytes added to the file are read off the front of the stream. *)
Lemma receive_loop_taken fileSize stream received file :
  ∃ taken,
    receive_loop fileSize stream received file
    = ((received + Z.of_nat (length taken))%Z, file ++ taken)
    ∧ taken `prefix_of` concat stream
    ∧ ((received + Z.of_nat (length taken) < fileSize)%Z →
       ∃ n, taken = concat (take n stream)
            ∧ stream !! n ∈ [None; Some []])
    ∧ ((fileSize <= received)%Z → taken = [])
    ∧ ((received < fileSize)%Z →
       Forall (λ data, (length data ≤ 1024)%nat) stream →
       (received + Z.of_nat (length taken) < fileSize + 1024)%Z).
Proof.
  revert received file. induction stream as [|data stream IH];
    intros received file; cbn [receive_loop].
  - exists []. rewrite app_nil_r, Z.add_0_r.
    split_and!; [by case_bool_decide|by exists []| |done|simpl; lia].
    intros _. exists 0. split; [done|]. left.
  - case_bool_decide as Hlt.
    2:{ exists []. rewrite app_nil_r, Z.add_0_r.
        split_and!; [done|by eexists|lia|done|lia]. }
    destruct data as [|b data].
    { exists []. rewrite app_nil_r, Z.add_0_r.
      split_and!; [done|by eexists| |done|simpl; lia].
      intros _. exists 0. split; [done|]. right. left. }
    destruct (IH (received + Z.of_nat (length (b :: data)))%Z
                 (file ++ b :: data)) as (taken & -> & Hpre & Hshort & Hfull & Hover).
    exists ((b :: data) ++ taken).
    rewrite length_app, Nat2Z.inj_add, Z.add_assoc, <- app_assoc.
    split_and!; [done| | |lia|].
    + cbn [concat]. by apply prefix_app.
    + intros Hstill. destruct Hshort as (n & -> & Hn); [done|].
      by exists (S n).
    + intros _ [Hdata Hstream]%Forall_cons.
      destruct (decide (received + Z.of_nat (length (b :: data)) < fileSize)%Z)
        as [Hmore|Hdone].
      * by apply Hover.
      * rewrite Hfull by lia. simpl in *. lia.
Qed.

(** X21.  The download loop writes what it reads, in order, and nothing
    else: the file is a beginning of the stream and [received] is its
    length.  It stops short of the declared size only when the peer has
    closed the connection, having then written all that arrived before;
    with a declared size of 0 or less it writes nothing; with reads of at
    most 1024 bytes it never holds 1024 bytes or more beyond the declared
    size. *)
Theorem receive_loop_writes_stream
    (fileSize : Z) (stream : list (list Byte.byte)) :
  ∃ file,
    receive_loop fileSize stream 0 [] = (Z.of_nat (length file), file)
    ∧ file `prefix_of` concat stream
    ∧ ((Z.of_nat (length file) < fileSize)%Z →
       ∃ n, file = concat (take n stream) ∧ stream !! n ∈ [None; Some []])
    ∧ ((fileSize <= 0)%Z → file = [])
    ∧ ((0 < fileSize)%Z →
       Forall (λ data, (length data ≤ 1024)%nat) stream →
       (Z.of_nat (length file) < fileSize + 1024)%Z).
Proof.
  destruct (receive_loop_taken fileSize stream 0 [])
    as (taken & Hrun & Hrest).
  exists taken. by rewrite Hrun.
Qed.

Lemma receive_loop_exact stream received file :
  Forall (λ data, data ≠ []) stream →
  receive_loop (received + Z.of_nat (length (concat stream))) stream
    received file
  = ((received + Z.of_nat (length (concat stream)))%Z, file ++ concat stream).
Proof.
  intros Hne. revert received file.
  induction Hne as [|data stream Hdata _ IH]; intros received file;
    cbn [receive_loop concat].
  - rewrite bool_decide_false by (simpl; lia).
    by rewrite app_nil_r, Z.add_0_r.
  - destruct data as [|b data]; [done|].
    rewrite bool_decide_true by (rewrite length_app; simpl; lia).
    rewrite length_app, Nat2Z.inj_add, Z.add_assoc, IH.
    by rewrite <- app_assoc.
Qed.

(** X22.  A file that the serving peer finds in the directory of its user
    is delivered whole.  After the acknowledgment the server sends the size
    of the file and then its chunks; a requester that has read that size
    and receives the bytes sent, cut by the connection into any non-empty
    pieces, writes exactly the content of the file. *)
Theorem transfer_delivers_file
    (fs : string → option node) (username filename : string)
    (request : message_t) (content : list Byte.byte) :
  dict_get "filename" request = Some (PStr filename) →
  dict_in "username" request = true →
  fs (path_join (userDir username) filename) = Some (RegularFile content) →
  process_transfer_request fs username (Some (Object request)) ACK
  = SizeToken (N.of_nat (length content)) :: (Chunk <$> send_file content)
  ∧ ∀ stream,
      Forall (λ data, data ≠ []) stream →
      concat stream = concat (send_file content) →
      fetch_receive (Declared (Z.of_nat (length content))) stream
      = (DownloadedSuccessfully, Some content).
Proof.
  intros Hname Huser Hfile. split.
  - unfold process_transfer_request, dict_getitem, dict_in in *.
    rewrite Hname. destruct (dict_get "username" request); [|done].
    by rewrite Hfile.
  - intros stream Hne Hcat.
    destruct (read_chunks_spec (S (length content)) content) as (Hc & _);
      [lia|].
    unfold send_file in Hcat. rewrite Hc in Hcat. unfold fetch_receive.
    pose proof (receive_loop_exact stream 0 [] Hne) as Hrun.
    rewrite Hcat, !Z.add_0_l in Hrun. by rewrite Hrun.
Qed.

Lemma transfer_delivers_file_witness :
  fetch_receive (Declared 3) [[Byte.x61]; [Byte.x62; Byte.x63]]
  = (DownloadedSuccessfully, Some [Byte.x61; Byte.x62; Byte.x63]).
Proof.
  apply (transfer_delivers_file
           (λ path, if bool_decide (path = "./alice/a.txt")
                    then Some (RegularFile [Byte.x61; Byte.x62; Byte.x63])
                    else None)
           "alice" "a.txt"
           [("username", PStr "bob"); ("filename", PStr "a.txt")]
           [Byte.x61; Byte.x62; Byte.x63]); try reflexivity.
  by repeat constructor.
Defined.


(** X24.  A request whose filename begins with [/] is resolved as it
    stands, outside the directory of the serving user: the file at that
    absolute path is sent whoever the serving user is. *)
Theorem transfer_serves_absolute_path
    (fs : string → option node) (username : string) (rest : string)
    (request : message_t) (content : list Byte.byte) :
  dict_get "filename" request = Some (PStr ("/" +:+ rest)) →
  dict_in "username" request = true →
  fs ("/" +:+ rest) = Some (RegularFile content) →
  process_transfer_request fs username (Some (Object request)) ACK
  = SizeToken (N.of_nat (length content)) :: (Chunk <$> send_file content).
Proof.
  intros Hname Huser Hfile.
  unfold process_transfer_request, dict_getitem, dict_in in *.
  rewrite Hname. destruct (dict_get "username" request); [|done].
  assert (path_join (userDir username) ("/" +:+ rest) = "/" +:+ rest) as ->.
  { unfold path_join. by destruct rest. }
  by rewrite Hfile.
Qed.

Lemma transfer_serves_absolute_path_witness :
  process_transfer_request
    (λ path, if bool_decide (path = "/etc/passwd")
             then Some (RegularFile [Byte.x61]) else None)
    "alice" (Some (Object (file_request "FETCH" "bob" "/etc/passwd"))) ACK
  = [SizeToken 1; Chunk [Byte.x61]].
Proof.
  apply (transfer_serves_absolute_path _ "alice" "etc/passwd"
           (file_request "FETCH" "bob" "/etc/passwd") [Byte.x61]);
    reflexivity.
Defined.
